(** * Supacache: a shallow embedding of the caching worker

    The development follows the three source files of the worker:
    [src/index.ts] (request handler, TTL parsing, eligibility policy, D1
    store adapter), [src/crypto.ts] (AES-GCM envelope) and [src/gzip.ts]
    (GZIP + base64 stage).

    Conventions.
    - A JavaScript string is the list of its UTF-16 code units ([list N]).
    - A [Uint8Array] / [ArrayBuffer] is a [list ascii] (8-bit bytes).
    - A JavaScript number is [NaN] or an integer [Num z]; the model is exact
      for the safe-integer range, which covers every value the handler
      computes from decimal header text below 2^53.
    - Promise rejection and [throw] are [None] in an [option] result.
    - Built-ins of the platform that are pure functions of their input
      (string search, [parseInt], [btoa]/[atob], [TextEncoder]/[TextDecoder],
      MD5, [Date.prototype.toISOString], SQLite's [CURRENT_TIMESTAMP] text and
      text comparison) are defined here so that every definition computes.
    - Third-party and host capabilities ([compress-json], [pako], [JSON],
      AES-GCM of [crypto.subtle], the upstream [fetch]) are the fields of the
      [Runtime] class; what is assumed about them is collected in
      [RuntimeLaws] and always appears as an explicit hypothesis. *)

From Stdlib Require Import ZArith NArith List String Ascii Bool Lia DecimalPos.
From stdpp Require Import gmap.
Import ListNotations.

(** ** JavaScript strings *)

Abbreviation jsstring := (list N) (only parsing).
Abbreviation bytes := (list ascii) (only parsing).

(** A string literal of the source, as code units. *)
Definition js (s : string) : jsstring :=
  map N_of_ascii (list_ascii_of_string s).

(** [s.startsWith(p)] *)
Fixpoint startsWith (p s : jsstring) : bool :=
  match p, s with
  | [], _ => true
  | _ :: _, [] => false
  | a :: p', b :: s' => (a =? b)%N && startsWith p' s'
  end.

(** [s.includes(p)] *)
Fixpoint includes (s p : jsstring) : bool :=
  startsWith p s ||
  match s with
  | [] => false
  | _ :: s' => includes s' p
  end.

(** The longest prefix whose units satisfy [f], and the rest. *)
Fixpoint span (f : N -> bool) (s : jsstring) : jsstring * jsstring :=
  match s with
  | [] => ([], [])
  | c :: s' =>
      if f c then let '(a, b) := span f s' in (c :: a, b) else ([], s)
  end.

(** [s.split(sep)] for a one-unit separator. *)
Fixpoint split_on (sep : N) (s : jsstring) : list jsstring :=
  match s with
  | [] => [[]]
  | c :: s' =>
      if (c =? sep)%N then [] :: split_on sep s'
      else match split_on sep s' with
           | [] => [[c]]
           | f :: fs => (c :: f) :: fs
           end
  end.

(** [parts.join(sep)] *)
Fixpoint join (sep : jsstring) (parts : list jsstring) : jsstring :=
  match parts with
  | [] => []
  | [p] => p
  | p :: ps => p ++ sep ++ join sep ps
  end.

(** ASCII lower-casing, as applied to header names. *)
Definition lower_unit (c : N) : N :=
  if ((65 <=? c) && (c <=? 90))%N then (c + 32)%N else c.

Definition toLowerCase (s : jsstring) : jsstring := map lower_unit s.

(** ** JavaScript numbers, [parseInt] and [Number.prototype.toString] *)

Inductive number : Type :=
| NaN
| Num (z : Z).

(** [StrWhiteSpaceChar] of ECMA-262: white space and line terminators. *)
Definition isStrWhiteSpace (c : N) : bool :=
  existsb (N.eqb c)
    [9; 10; 11; 12; 13; 32; 160; 5760; 8232; 8233; 8239; 8287; 12288; 65279]%N
  || ((8192 <=? c) && (c <=? 8202))%N.

Definition isDigit (c : N) : bool := ((48 <=? c) && (c <=? 57))%N.

Definition digitsValue (ds : jsstring) : Z :=
  fold_left (fun acc c => 10 * acc + (Z.of_N c - 48))%Z ds 0%Z.

(** [Number.parseInt(s, 10)]: skip white space, read an optional sign, then
    the longest run of decimal digits; [NaN] when that run is empty. *)
Definition parseInt (s : jsstring) : number :=
  let s1 := snd (span isStrWhiteSpace s) in
  let '(sign, s2) :=
    match s1 with
    | 45%N :: r => ((-1)%Z, r)
    | 43%N :: r => (1%Z, r)
    | _ => (1%Z, s1)
    end in
  match fst (span isDigit s2) with
  | [] => NaN
  | ds => Num (sign * digitsValue ds)
  end.

Fixpoint uintUnits (u : Decimal.uint) : jsstring :=
  match u with
  | Decimal.Nil => []
  | Decimal.D0 r => 48%N :: uintUnits r
  | Decimal.D1 r => 49%N :: uintUnits r
  | Decimal.D2 r => 50%N :: uintUnits r
  | Decimal.D3 r => 51%N :: uintUnits r
  | Decimal.D4 r => 52%N :: uintUnits r
  | Decimal.D5 r => 53%N :: uintUnits r
  | Decimal.D6 r => 54%N :: uintUnits r
  | Decimal.D7 r => 55%N :: uintUnits r
  | Decimal.D8 r => 56%N :: uintUnits r
  | Decimal.D9 r => 57%N :: uintUnits r
  end.

(** [n.toString()] for the numbers of the model. *)
Definition Number_toString (n : number) : jsstring :=
  match n with
  | NaN => js "NaN"
  | Num Z0 => js "0"
  | Num (Zpos p) => uintUnits (Pos.to_uint p)
  | Num (Zneg p) => 45%N :: uintUnits (Pos.to_uint p)
  end.

(** ** Headers *)

(** A [Headers] object: its entries, with [get] matching names without
    regard to ASCII case and joining repeated fields with ", ". *)
Abbreviation Headers := (list (list N * list N)) (only parsing).

Definition Headers_get (h : Headers) (name : jsstring) : option jsstring :=
  match
    map snd
      (List.filter
         (fun e => bool_decide (toLowerCase (fst e) = toLowerCase name)) h)
  with
  | [] => None
  | vs => Some (join (js ", ") vs)
  end.

Definition Headers_delete (h : Headers) (name : jsstring) : Headers :=
  List.filter
    (fun e => negb (bool_decide (toLowerCase (fst e) = toLowerCase name))) h.

(** Truthiness of a [string | null] value. *)
Definition truthy (v : option jsstring) : bool :=
  match v with
  | Some (_ :: _) => true
  | _ => false
  end.

(** ** [src/index.ts]: configuration and pure helpers *)

(** [bypassCacheOnPath] *)
Definition bypassCacheOnPath : list jsstring :=
  [js "/realtime/"; js "/subscriptions/"].

(** [defaultTTL] *)
Definition defaultTTL : Z := 900.

(** [isValidServiceKey(key, expectedKey)]: strict equality of the header
    value ([null] when the header is absent) and the provisioned secret
    ([undefined] when it was never provisioned; [null === undefined] is
    false). *)
Definition isValidServiceKey (key expectedKey : option jsstring) : bool :=
  match key, expectedKey with
  | Some k, Some e => bool_decide (k = e)
  | _, _ => false
  end.

(** The regular expression literal of [parseTTL], [/max-age=(\\d+)/] as it
    is written in the source: inside a regex literal the two backslashes are
    one escaped backslash, so the pattern is the text [max-age=], a literal
    backslash, and one or more letters [d]; group 1 is the backslash with the
    run of [d]. [maxAgeAt s] is an anchored match at the start of [s]. *)
Definition isLetter_d (c : N) : bool := (c =? 100)%N.

Definition maxAgeAt (s : jsstring) : option jsstring :=
  if startsWith (js "max-age=\") s then
    match fst (span isLetter_d (drop 9 s)) with
    | [] => None
    | ds => Some (92%N :: ds)
    end
  else None.

(** [cacheControl.match(re)]: the leftmost match; the result is group 1. *)
Fixpoint maxAgeMatch (s : jsstring) : option jsstring :=
  match maxAgeAt s with
  | Some g => Some g
  | None =>
      match s with
      | [] => None
      | _ :: s' => maxAgeMatch s'
      end
  end.

(** [parseTTL(headers)]; a request always has a [Headers] object, so the
    [if (headers)] test is the true branch. *)
Definition parseTTL (headers : Headers) : Z :=
  let useTTL0 := parseInt (Number_toString (Num defaultTTL)) in
  let ttlHeader := Headers_get headers (js "x-ttl") in
  let useTTL :=
    if truthy ttlHeader then parseInt (default [] ttlHeader)
    else
      let cacheControl := Headers_get headers (js "Cache-Control") in
      if truthy cacheControl then
        match maxAgeMatch (default [] cacheControl) with
        | Some g => parseInt g
        | None => useTTL0
        end
      else useTTL0 in
  match parseInt (Number_toString useTTL) with
  | Num ttl => if (0 <? ttl)%Z then ttl else defaultTTL
  | NaN => defaultTTL
  end.

(** [canCacheEndpoint(url)] *)
Definition canCacheEndpoint (url : jsstring) : bool :=
  negb (existsb (fun path => includes url path) bypassCacheOnPath).

(** Requests and responses, reduced to the fields the worker reads. *)
Record Request : Type := mkRequest {
  req_method : jsstring;
  req_url : jsstring;
  req_headers : Headers;
  req_body : option jsstring
}.

Record Response : Type := mkResponse {
  res_status : Z;
  res_headers : Headers;
  res_body : bytes
}.

(** [response.ok] *)
Definition Response_ok (r : Response) : bool :=
  ((200 <=? res_status r) && (res_status r <=? 299))%Z.

(** [shouldCacheResponse(request, response)] *)
Definition shouldCacheResponse (request : Request) (response : Response) : bool :=
  if negb (Response_ok response) then false
  else if ((res_status response <? 200) || (300 <=? res_status response))%Z
  then false
  else if
    match Headers_get (res_headers response) (js "Cache-Control") with
    | Some v => includes v (js "no-store")
    | None => false
    end
  then false
  else if negb (bool_decide (req_method request = js "GET"))
          && negb (bool_decide (req_method request = js "HEAD"))
  then false
  else if includes (req_url request) (js "/rest/")
          && negb (includes (req_url request) (js "?select="))
  then false
  else true.

(** ** [TextEncoder] and [TextDecoder] (UTF-8) *)

Definition isHighSurrogate (c : N) : bool := ((55296 <=? c) && (c <=? 56319))%N.
Definition isLowSurrogate (c : N) : bool := ((56320 <=? c) && (c <=? 57343))%N.

(** The code points of a string; a lone surrogate reads as U+FFFD. *)
Fixpoint codePoints (s : jsstring) : list N :=
  match s with
  | [] => []
  | c :: s' =>
      if isHighSurrogate c then
        match s' with
        | d :: s'' =>
            if isLowSurrogate d
            then (65536 + (c - 55296) * 1024 + (d - 56320))%N :: codePoints s''
            else 65533%N :: codePoints s'
        | [] => [65533%N]
        end
      else if isLowSurrogate c then 65533%N :: codePoints s'
      else c :: codePoints s'
  end.

Definition utf8_of_codePoint (cp : N) : bytes :=
  map ascii_of_N
    (if cp <? 128 then [cp]
     else if cp <? 2048 then [192 + cp / 64; 128 + cp mod 64]
     else if cp <? 65536 then
       [224 + cp / 4096; 128 + (cp / 64) mod 64; 128 + cp mod 64]
     else
       [240 + cp / 262144; 128 + (cp / 4096) mod 64;
        128 + (cp / 64) mod 64; 128 + cp mod 64])%N.

(** [new TextEncoder().encode(s)] *)
Definition TextEncoder_encode (s : jsstring) : bytes :=
  concat (map utf8_of_codePoint (codePoints s)).

(** State of the UTF-8 decoder of the Encoding standard. *)
Record utf8_state : Type := mkUtf8 {
  u_cp : N; u_seen : N; u_needed : N; u_lower : N; u_upper : N
}.

Definition utf8_init : utf8_state := mkUtf8 0 0 0 128 191.

(** A byte read while no sequence is open. *)
Definition utf8_lead (b : N) : list N * utf8_state :=
  if (b <=? 127)%N then ([b], utf8_init)
  else if ((194 <=? b) && (b <=? 223))%N then
    ([], mkUtf8 (b - 192) 0 1 128 191)
  else if ((224 <=? b) && (b <=? 239))%N then
    ([], mkUtf8 (b - 224) 0 2
           (if (b =? 224)%N then 160 else 128)
           (if (b =? 237)%N then 159 else 191))
  else if ((240 <=? b) && (b <=? 244))%N then
    ([], mkUtf8 (b - 240) 0 3
           (if (b =? 240)%N then 144 else 128)
           (if (b =? 244)%N then 143 else 191))
  else ([65533%N], utf8_init).

(** One byte: an out-of-range continuation emits U+FFFD and the byte is
    read again as a lead byte. *)
Definition utf8_step (st : utf8_state) (b : N) : list N * utf8_state :=
  if (u_needed st =? 0)%N then utf8_lead b
  else if negb ((u_lower st <=? b) && (b <=? u_upper st))%N then
    let '(out, st') := utf8_lead b in (65533%N :: out, st')
  else
    let cp := (u_cp st * 64 + (b - 128))%N in
    if (u_seen st + 1 =? u_needed st)%N then ([cp], utf8_init)
    else ([], mkUtf8 cp (u_seen st + 1) (u_needed st) 128 191).

Fixpoint utf8_run (st : utf8_state) (bs : list N) : list N :=
  match bs with
  | [] => if (u_needed st =? 0)%N then [] else [65533%N]
  | b :: bs' => let '(out, st') := utf8_step st b in out ++ utf8_run st' bs'
  end.

Definition utf16_of_codePoint (cp : N) : jsstring :=
  if (cp <? 65536)%N then [cp]
  else [55296 + (cp - 65536) / 1024; 56320 + (cp - 65536) mod 1024]%N.

(** [new TextDecoder().decode(bs)]: UTF-8, replacement on error, and a
    leading byte-order mark removed (the default [ignoreBOM: false]). *)
Definition stripBOM (ns : list N) : list N :=
  match ns with
  | b0 :: b1 :: b2 :: r =>
      if ((b0 =? 239) && (b1 =? 187) && (b2 =? 191))%N then r else ns
  | _ => ns
  end.

Definition TextDecoder_decode (bs : bytes) : jsstring :=
  concat (map utf16_of_codePoint
            (utf8_run utf8_init (stripBOM (map N_of_ascii bs)))).

(** Strings whose units are 16-bit and whose surrogates come in pairs, and
    strings that begin with U+FEFF. *)
Fixpoint wellFormed (s : jsstring) : bool :=
  match s with
  | [] => true
  | c :: s' =>
      if isHighSurrogate c then
        match s' with
        | d :: s'' => isLowSurrogate d && wellFormed s''
        | [] => false
        end
      else (c <? 65536)%N && negb (isLowSurrogate c) && wellFormed s'
  end.

Definition startsWithBOM (s : jsstring) : bool :=
  match s with
  | c :: _ => (c =? 65279)%N
  | [] => false
  end.

(** A Unicode scalar value. *)
Definition scalar (cp : N) : Prop :=
  (cp < 1114112)%N /\ ~ (55296 <= cp <= 57343)%N.

(** ** Dates, and SQLite's view of them *)

Local Open Scope Z_scope.

(** Proleptic Gregorian date of a day number counted from 1970-01-01. *)
Definition civil_from_days (days : Z) : Z * Z * Z :=
  let z := days + 719468 in
  let era := z / 146097 in
  let doe := z - era * 146097 in
  let yoe := (doe - doe / 1460 + doe / 36524 - doe / 146096) / 365 in
  let doy := doe - (365 * yoe + yoe / 4 - yoe / 100) in
  let mp := (5 * doy + 2) / 153 in
  let d := doy - (153 * mp + 2) / 5 + 1 in
  let m := if mp <? 10 then mp + 3 else mp - 9 in
  let y := yoe + era * 400 + (if m <=? 2 then 1 else 0) in
  (y, m, d).

(** [n] as exactly [w] decimal digits (the low-order ones). *)
Fixpoint padDigits (w : nat) (n : Z) : jsstring :=
  match w with
  | O => []
  | S w' => padDigits w' (n / 10) ++ [Z.to_N (48 + n mod 10)]
  end.

Definition isoYear (y : Z) : jsstring :=
  if (0 <=? y) && (y <=? 9999) then padDigits 4 y
  else if y <? 0 then js "-" ++ padDigits 6 (- y)
  else js "+" ++ padDigits 6 y.

Definition msPerDay : Z := 86400000.

Definition dateText (ms : Z) : jsstring :=
  let '(y, m, d) := civil_from_days (ms / msPerDay) in
  isoYear y ++ js "-" ++ padDigits 2 m ++ js "-" ++ padDigits 2 d.

Definition clockText (ms : Z) : jsstring :=
  let t := ms mod msPerDay in
  padDigits 2 (t / 3600000) ++ js ":" ++ padDigits 2 (t / 60000 mod 60)
  ++ js ":" ++ padDigits 2 (t / 1000 mod 60).

(** [new Date(ms).toISOString()]; a time value beyond 8.64e15 is an invalid
    date and the call throws a [RangeError]. *)
Definition Date_toISOString (ms : Z) : option jsstring :=
  if (-8640000000000000 <=? ms) && (ms <=? 8640000000000000) then
    Some (dateText ms ++ js "T" ++ clockText ms ++ js "."
          ++ padDigits 3 (ms mod 1000) ++ js "Z")
  else None.

(** SQLite's [CURRENT_TIMESTAMP] when the clock reads [ms] (a time in the
    years 0000 to 9999): the text [YYYY-MM-DD HH:MM:SS] in UTC. *)
Definition CURRENT_TIMESTAMP (ms : Z) : jsstring :=
  dateText ms ++ js " " ++ clockText ms.

Local Close Scope Z_scope.

(** SQLite compares two TEXT values with the BINARY collation: [memcmp] on
    their UTF-8 encodings, a proper prefix being the smaller. *)
Fixpoint memcmp_gt (a b : list N) : bool :=
  match a, b with
  | [], _ => false
  | _ :: _, [] => true
  | x :: a', y :: b' =>
      if (x =? y)%N then memcmp_gt a' b' else (y <? x)%N
  end.

Definition sqlite_text_gt (a b : jsstring) : bool :=
  memcmp_gt (map N_of_ascii (TextEncoder_encode a))
            (map N_of_ascii (TextEncoder_encode b)).
(** ** [btoa] and [atob] (base64) *)

(** A six-bit group is an [ascii] whose two high bits are clear. *)
Definition sextet1 (a : ascii) : ascii :=
  let '(Ascii a0 a1 a2 a3 a4 a5 a6 a7) := a in
  Ascii a2 a3 a4 a5 a6 a7 false false.

Definition sextet2 (a b : ascii) : ascii :=
  let '(Ascii a0 a1 a2 a3 a4 a5 a6 a7) := a in
  let '(Ascii b0 b1 b2 b3 b4 b5 b6 b7) := b in
  Ascii b4 b5 b6 b7 a0 a1 false false.

Definition sextet3 (b c : ascii) : ascii :=
  let '(Ascii b0 b1 b2 b3 b4 b5 b6 b7) := b in
  let '(Ascii c0 c1 c2 c3 c4 c5 c6 c7) := c in
  Ascii c6 c7 b0 b1 b2 b3 false false.

Definition sextet4 (c : ascii) : ascii :=
  let '(Ascii c0 c1 c2 c3 c4 c5 c6 c7) := c in
  Ascii c0 c1 c2 c3 c4 c5 false false.

(** The base64 alphabet: [A-Z], [a-z], [0-9], [+], [/]. *)
Definition b64char (six : ascii) : N :=
  let i := N_of_ascii six in
  (if i <? 26 then 65 + i
   else if i <? 52 then 71 + i
   else if i <? 62 then i - 4
   else if i =? 62 then 43 else 47)%N.

Definition b64index (c : N) : option ascii :=
  (if (65 <=? c) && (c <=? 90) then Some (ascii_of_N (c - 65))
   else if (97 <=? c) && (c <=? 122) then Some (ascii_of_N (c - 71))
   else if (48 <=? c) && (c <=? 57) then Some (ascii_of_N (c + 4))
   else if c =? 43 then Some (ascii_of_N 62)
   else if c =? 47 then Some (ascii_of_N 63)
   else None)%N.

Fixpoint b64encode (bs : bytes) : jsstring :=
  match bs with
  | [] => []
  | [a] => [b64char (sextet1 a); b64char (sextet2 a zero); 61%N; 61%N]
  | [a; b] =>
      [b64char (sextet1 a); b64char (sextet2 a b);
       b64char (sextet3 b zero); 61%N]
  | a :: b :: c :: r =>
      b64char (sextet1 a) :: b64char (sextet2 a b)
      :: b64char (sextet3 b c) :: b64char (sextet4 c) :: b64encode r
  end.

(** An [ascii] that is a six-bit group. *)
Definition sixBits (x : ascii) : Prop :=
  exists b0 b1 b2 b3 b4 b5, x = Ascii b0 b1 b2 b3 b4 b5 false false.

(** An ASCII unit other than the colon. *)
Definition plain (c : N) : Prop := (c < 128)%N /\ c <> 58%N.

(** The six-bit groups [b64encode] writes before padding. *)
Fixpoint b64sextets (bs : bytes) : list ascii :=
  match bs with
  | [] => []
  | [a] => [sextet1 a; sextet2 a zero]
  | [a; b] => [sextet1 a; sextet2 a b; sextet3 b zero]
  | a :: b :: c :: r =>
      sextet1 a :: sextet2 a b :: sextet3 b c :: sextet4 c :: b64sextets r
  end.

(** [btoa(s)]: throws on a unit above 255. *)
Definition btoa (s : jsstring) : option jsstring :=
  if forallb (fun c => c <? 256)%N s
  then Some (b64encode (map ascii_of_N s))
  else None.

(** [String.fromCharCode(...new Uint8Array(buffer))] *)
Definition fromCharCodes (bs : bytes) : jsstring := map N_of_ascii bs.

Definition isAsciiWhitespace (c : N) : bool :=
  existsb (N.eqb c) [9; 10; 12; 13; 32]%N.

(** Removes one or two trailing [=]. *)
Fixpoint dropPadding (s : jsstring) : jsstring :=
  match s with
  | [] => []
  | c :: s' =>
      if (c =? 61)%N
         && match s' with
            | [] => true
            | [d] => (d =? 61)%N
            | _ => false
            end
      then []
      else c :: dropPadding s'
  end.

Definition octet1 (p q : ascii) : ascii :=
  let '(Ascii p0 p1 p2 p3 p4 p5 _ _) := p in
  let '(Ascii q0 q1 q2 q3 q4 q5 _ _) := q in
  Ascii q4 q5 p0 p1 p2 p3 p4 p5.

Definition octet2 (q r : ascii) : ascii :=
  let '(Ascii q0 q1 q2 q3 q4 q5 _ _) := q in
  let '(Ascii r0 r1 r2 r3 r4 r5 _ _) := r in
  Ascii r2 r3 r4 r5 q0 q1 q2 q3.

Definition octet3 (r t : ascii) : ascii :=
  let '(Ascii r0 r1 r2 r3 r4 r5 _ _) := r in
  let '(Ascii t0 t1 t2 t3 t4 t5 _ _) := t in
  Ascii t0 t1 t2 t3 t4 t5 r0 r1.

(** Bytes of a run of six-bit groups; left-over bits of a final partial
    group are discarded. *)
Fixpoint b64decode (l : list ascii) : bytes :=
  match l with
  | p :: q :: r :: t :: rest =>
      octet1 p q :: octet2 q r :: octet3 r t :: b64decode rest
  | [p; q; r] => [octet1 p q; octet2 q r]
  | [p; q] => [octet1 p q]
  | _ => []
  end.

Fixpoint b64indices (s : jsstring) : option (list ascii) :=
  match s with
  | [] => Some []
  | c :: s' =>
      match b64index c, b64indices s' with
      | Some i, Some l => Some (i :: l)
      | _, _ => None
      end
  end.

(** [atob(s)], the forgiving-base64 decoder of the HTML standard: ASCII
    white space is removed, padding is removed when the length is a multiple
    of four, a length of 1 modulo 4 or a unit outside the alphabet throws. *)
Definition atob (s : jsstring) : option jsstring :=
  let s1 := List.filter (fun c => negb (isAsciiWhitespace c)) s in
  let s2 := if (length s1 mod 4 =? 0)%nat then dropPadding s1 else s1 in
  if (length s2 mod 4 =? 1)%nat then None
  else option_map (fun l => map N_of_ascii (b64decode l)) (b64indices s2).

(** ** MD5 ([crypto.subtle.digest]) *)

Module MD5.
Local Open Scope N_scope.

Definition w32 (x : N) : N := x mod 4294967296.

Definition rotl (x c : N) : N :=
  w32 (N.lor (N.shiftl x c) (N.shiftr x (32 - c))).

Definition not32 (x : N) : N := N.lxor x 4294967295.

Definition shifts : list N :=
  [7; 12; 17; 22; 7; 12; 17; 22; 7; 12; 17; 22; 7; 12; 17; 22;
   5; 9; 14; 20; 5; 9; 14; 20; 5; 9; 14; 20; 5; 9; 14; 20;
   4; 11; 16; 23; 4; 11; 16; 23; 4; 11; 16; 23; 4; 11; 16; 23;
   6; 10; 15; 21; 6; 10; 15; 21; 6; 10; 15; 21; 6; 10; 15; 21].

(** [K i = floor (2^32 * abs (sin (i + 1)))] *)
Definition K : list N :=
  [3614090360; 3905402710; 606105819; 3250441966; 4118548399; 1200080426;
   2821735955; 4249261313; 1770035416; 2336552879; 4294925233; 2304563134;
   1804603682; 4254626195; 2792965006; 1236535329; 4129170786; 3225465664;
   643717713; 3921069994; 3593408605; 38016083; 3634488961; 3889429448;
   568446438; 3275163606; 4107603335; 1163531501; 2850285829; 4243563512;
   1735328473; 2368359562; 4294588738; 2272392833; 1839030562; 4259657740;
   2763975236; 1272893353; 4139469664; 3200236656; 681279174; 3936430074;
   3572445317; 76029189; 3654602809; 3873151461; 530742520; 3299628645;
   4096336452; 1126891415; 2878612391; 4237533241; 1700485571; 2399980690;
   4293915773; 2240044497; 1873313359; 4264355552; 2734768916; 1309151649;
   4149444226; 3174756917; 718787259; 3951481745].

Definition state : Type := N * N * N * N.

Definition init : state := (1732584193, 4023233417, 2562383102, 271733878).

(** Round [i] on the sixteen little-endian words [m] of a block. *)
Definition round (m : list N) (st : state) (i : N) : state :=
  let '(a, b, c, d) := st in
  let '(f, g) :=
    if i <? 16 then (N.lor (N.land b c) (N.land (not32 b) d), i)
    else if i <? 32 then
      (N.lor (N.land d b) (N.land (not32 d) c), (5 * i + 1) mod 16)
    else if i <? 48 then (N.lxor b (N.lxor c d), (3 * i + 5) mod 16)
    else (N.lxor c (N.lor b (not32 d)), (7 * i) mod 16) in
  let f' := w32 (f + a + nth (N.to_nat i) K 0 + nth (N.to_nat g) m 0) in
  (d, w32 (b + rotl f' (nth (N.to_nat i) shifts 0)), b, c).

Fixpoint words (bs : list N) : list N :=
  match bs with
  | b0 :: b1 :: b2 :: b3 :: r =>
      (b0 + 256 * b1 + 65536 * b2 + 16777216 * b3) :: words r
  | _ => []
  end.

Definition block (st : state) (blk : list N) : state :=
  let '(a0, b0, c0, d0) := st in
  let '(a, b, c, d) :=
    fold_left (round (words blk)) (map N.of_nat (seq 0 64)) st in
  (w32 (a0 + a), w32 (b0 + b), w32 (c0 + c), w32 (d0 + d)).

Fixpoint blocks (fuel : nat) (st : state) (bs : list N) : state :=
  match fuel, bs with
  | S fuel', _ :: _ => blocks fuel' (block st (take 64 bs)) (drop 64 bs)
  | _, _ => st
  end.

Definition le_bytes (n : nat) (x : N) : list N :=
  map (fun k => (x / 256 ^ N.of_nat k) mod 256) (seq 0 n).

(** The message, a [1] bit, zeros up to 56 modulo 64, and the bit length
    as eight little-endian bytes. *)
Definition pad (msg : list N) : list N :=
  let len := N.of_nat (length msg) in
  let zeros := N.to_nat ((119 - len mod 64) mod 64) in
  msg ++ [128] ++ repeat 0 zeros ++ le_bytes 8 (8 * len).

Definition digest (msg : bytes) : bytes :=
  let p := pad (map N_of_ascii msg) in
  let '(a, b, c, d) := blocks (length p) init p in
  map ascii_of_N (le_bytes 4 a ++ le_bytes 4 b ++ le_bytes 4 c ++ le_bytes 4 d).

End MD5.

Definition hexDigit (n : N) : N := (if n <? 10 then 48 + n else 87 + n)%N.

(** [b.toString(16).padStart(2, "0")] *)
Definition hexByte (b : ascii) : jsstring :=
  [hexDigit (N_of_ascii b / 16); hexDigit (N_of_ascii b mod 16)].

(** [generateCacheKey(url)] *)
Definition generateCacheKey (url : jsstring) : jsstring :=
  concat (map hexByte (MD5.digest (TextEncoder_encode url))).

(** ** The D1 table, and the effects of a request *)

(** A row of the cache table, without its primary key [key], which is the
    key of the map that holds the rows. *)
Record Row : Type := mkRow {
  row_body : bytes;
  row_status : Z;
  row_headers : jsstring;
  row_expires : jsstring;
  row_created_at : jsstring
}.

(** What a request does to the outside: statements run against D1 and calls
    of the upstream [fetch], in order. *)
Inductive event : Type :=
| StoreRead (key : jsstring)
| StoreWrite (key : jsstring) (row : Row)
| UpstreamFetch (request : Request).

Record world : Type := mkWorld {
  w_store : gmap (list N) Row;
  w_trace : list event
}.

(** A computation reads and updates the world and returns a value or
    throws ([None]); effects performed before a throw remain. *)
Definition M (A : Type) : Type := world -> option A * world.

#[global] Instance M_ret : MRet M := fun A a w => (Some a, w).

#[global] Instance M_bind : MBind M := fun A B f m w =>
  match m w with
  | (Some a, w') => f a w'
  | (None, w') => (None, w')
  end.

Definition throw {A : Type} : M A := fun w => (None, w).

Definition orThrow {A : Type} (o : option A) : M A :=
  match o with
  | Some a => mret a
  | None => throw
  end.

(** [try { m } catch { h }] *)
Definition tryCatch {A : Type} (m h : M A) : M A := fun w =>
  match m w with
  | (Some a, w') => (Some a, w')
  | (None, w') => h w'
  end.

Definition emit (e : event) : M unit := fun w =>
  (Some tt, mkWorld (w_store w) (w_trace w ++ [e])).

(** [SELECT ... WHERE key = ? AND expires > CURRENT_TIMESTAMP] with
    [.first()], when the database clock reads [now]. The [expires] column
    holds the text bound by [cacheResponse] (its declared type [DATETIME]
    gives it NUMERIC affinity, which leaves text that is not a number as
    TEXT) and [CURRENT_TIMESTAMP] is TEXT, so [>] compares two texts. The
    database is taken to answer every statement. *)
Definition db_first (key : jsstring) (now : Z) : M (option Row) := fun w =>
  (Some
     (match w_store w !! key with
      | Some row =>
          if sqlite_text_gt (row_expires row) (CURRENT_TIMESTAMP now)
          then Some row else None
      | None => None
      end),
   mkWorld (w_store w) (w_trace w ++ [StoreRead key])).

(** [INSERT OR REPLACE INTO ... VALUES (?, ?, ?, ?, ?)] with [.run()]. *)
Definition db_run_upsert (key : jsstring) (row : Row) : M unit := fun w =>
  (Some tt,
   mkWorld (<[key := row]> (w_store w)) (w_trace w ++ [StoreWrite key row])).

(** The worker's bindings. *)
Record Env : Type := mkEnv {
  SERVICE_AUTH_KEY : option jsstring;
  D1_CACHESTORE_ENCRYPTION_KEY : option jsstring;
  SUPABASE_URL : jsstring;
  D1_CACHESTORE_TABLE_NAME : jsstring
}.

(** [response.text()] *)
Definition Response_text (r : Response) : jsstring :=
  TextDecoder_decode (res_body r).

(** Statuses for which a response may not carry a body. *)
Definition isNullBodyStatus (status : Z) : bool :=
  existsb (Z.eqb status) [101; 103; 204; 205; 304]%Z.

(** [new Response(body, { status, headers })]: a [RangeError] for a status
    outside 200..599 and a [TypeError] for a body with a null-body status. *)
Definition newResponse (body : bytes) (status : Z) (headers : Headers)
  : option Response :=
  if ((200 <=? status) && (status <=? 599))%Z && negb (isNullBodyStatus status)
  then Some (mkResponse status headers body)
  else None.

(** [new Response(text, { status })] *)
Definition textResponse (text : jsstring) (status : Z) : Response :=
  mkResponse status [(js "content-type", js "text/plain;charset=UTF-8")]
    (TextEncoder_encode text).

(** ** Host and third-party capabilities *)

(** What the worker imports and does not define: [JSON], the [compress-json]
    and [pako] packages, AES-GCM of [crypto.subtle], the JSON form of a
    header collection, and the [URL] rewriting of the upstream request.
    [None] is a thrown exception or a rejected promise. *)
Class Runtime : Type := {
  json : Type;
  JSON_parse : jsstring -> option json;
  JSON_stringify : json -> jsstring;
  compress : json -> json;
  decompress : json -> option json;
  gzip : jsstring -> bytes;
  ungzip : bytes -> option jsstring;
  CryptoKey : Type;
  importKey : bytes -> option CryptoKey;
  aesGcmEncrypt : CryptoKey -> bytes -> bytes -> bytes;
  aesGcmDecrypt : CryptoKey -> bytes -> bytes -> option bytes;
  headersToJSON : Headers -> jsstring;
  headersOfJSON : jsstring -> option Headers;
  upstreamURL : jsstring -> jsstring -> option jsstring
}.

(** The contracts of those capabilities that the round-trip properties rest
    on: each decoder inverts its encoder ([pako] on the JSON texts it is
    given here). *)
Record RuntimeLaws (R : Runtime) : Prop := {
  JSON_parse_stringify : forall v, JSON_parse (JSON_stringify v) = Some v;
  decompress_compress : forall v, decompress (compress v) = Some v;
  ungzip_gzip :
    forall v, ungzip (gzip (JSON_stringify v)) = Some (JSON_stringify v);
  aesGcm_decrypt_encrypt :
    forall k iv m, aesGcmDecrypt k iv (aesGcmEncrypt k iv m) = Some m
}.

Section Worker.
Context {R : Runtime}.

(** ** [src/crypto.ts] *)

(** [getEncryptionKey(secretKey)]; [encode(undefined)] is the empty array. *)
Definition getEncryptionKey (secretKey : option jsstring) : option CryptoKey :=
  importKey (TextEncoder_encode (default [] secretKey)).

(** [arrayBufferToBase64(buffer)] *)
Definition arrayBufferToBase64 (buffer : bytes) : option jsstring :=
  btoa (fromCharCodes buffer).

(** [base64ToArrayBuffer(base64)] *)
Definition base64ToArrayBuffer (base64 : jsstring) : option bytes :=
  option_map (map ascii_of_N) (atob base64).

(** [encrypt(data, key)]; [iv] is the value drawn by
    [crypto.getRandomValues(new Uint8Array(12))]. *)
Definition encrypt (data : jsstring) (key : CryptoKey) (iv : bytes)
  : option jsstring :=
  let encodedData := TextEncoder_encode data in
  let ciphertext := aesGcmEncrypt key iv encodedData in
  match arrayBufferToBase64 iv, arrayBufferToBase64 ciphertext with
  | Some ivB, Some ctB => Some (ivB ++ js ":" ++ ctB)
  | _, _ => None
  end.

(** [const [ivBase64, ciphertextBase64] = encryptedData.split(":")]: the
    first two fields; a missing second field is [undefined], which [atob]
    reads as the text [undefined]. *)
Definition envelopeFields (encryptedData : jsstring) : jsstring * jsstring :=
  match split_on 58%N encryptedData with
  | ivB :: ctB :: _ => (ivB, ctB)
  | [ivB] => (ivB, js "undefined")
  | [] => (js "undefined", js "undefined")
  end.

(** [decrypt(encryptedData, key)] *)
Definition decrypt (encryptedData : jsstring) (key : CryptoKey)
  : option jsstring :=
  let '(ivBase64, ciphertextBase64) := envelopeFields encryptedData in
  match base64ToArrayBuffer ivBase64 with
  | None => None
  | Some iv =>
      match base64ToArrayBuffer ciphertextBase64 with
      | None => None
      | Some ciphertext =>
          option_map TextDecoder_decode (aesGcmDecrypt key iv ciphertext)
      end
  end.

(** ** [src/gzip.ts] *)

(** [gzipCompress(data)] *)
Definition gzipCompress (data : jsstring) : option jsstring :=
  btoa (fromCharCodes (gzip data)).

(** [gzipExpand(compressedData)] *)
Definition gzipExpand (compressedData : jsstring) : option jsstring :=
  match atob compressedData with
  | None => None
  | Some binary => ungzip (map ascii_of_N binary)
  end.

(** The two compression stages of [cacheResponse] (steps 1 and 2) on a parsed
    body, and their inverses in [parseD1Row]. *)
Definition compressBody (x : json) : option jsstring :=
  gzipCompress (JSON_stringify (compress x)).

Definition decompressBody (stored : jsstring) : option json :=
  match gzipExpand stored with
  | None => None
  | Some gzipDecompressedBody =>
      match JSON_parse gzipDecompressedBody with
      | None => None
      | Some v => decompress v
      end
  end.


(** ** [src/index.ts]: the store adapter and the request handler *)

(** The value [parseD1Row] resolves to. *)
Record SupacacheTableSchema : Type := mkSchema {
  sc_key : jsstring;
  sc_body : bytes;
  sc_status : Z;
  sc_headers : jsstring;
  sc_expires : jsstring
}.

(** [parseD1Row(row, encryptionKey)]: every failure inside its [try] block
    is caught and the result is [null] ([None]). *)
Definition parseD1Row (key : jsstring) (row : Row) (encryptionKey : CryptoKey)
  : option SupacacheTableSchema :=
  match decrypt (TextDecoder_decode (row_body row)) encryptionKey with
  | None => None
  | Some decryptedBody =>
      match decompressBody decryptedBody with
      | None => None
      | Some v =>
          let originalBody := JSON_stringify v in
          Some (mkSchema key (TextEncoder_encode originalBody)
                  (row_status row) (row_headers row) (row_expires row))
      end
  end.

(** [getCachedResponse(cacheKey, db, dbTableName, encryptionKey)] *)
Definition getCachedResponse (cacheKey : jsstring) (now : Z)
    (encryptionKey : CryptoKey) : M (option Response) :=
  result ← db_first cacheKey now;
  match result with
  | Some row =>
      match parseD1Row cacheKey row encryptionKey with
      | None => mret None
      | Some data =>
          headers ← orThrow (headersOfJSON (sc_headers data));
          response ← orThrow (newResponse (sc_body data) (row_status row) headers);
          mret (Some response)
      end
  | None => mret None
  end.

(** The request [fetchFromSupabase] sends: the rewritten [url] and the
    [init] object with the two cache headers removed. *)
Definition upstreamRequest (request : Request) (url : jsstring) : Request :=
  let headers :=
    Headers_delete
      (Headers_delete (req_headers request) (js "x-cache-service-key"))
      (js "x-ttl") in
  mkRequest (req_method request) url headers (req_body request).

(** [fetchFromSupabase(request, supabaseUrl)]; [upstream] is the global
    [fetch]. *)
Definition fetchFromSupabase (request : Request) (supabaseUrl : jsstring)
    (upstream : Request -> option Response) : M Response :=
  url ← orThrow (upstreamURL (req_url request) supabaseUrl);
  let out := upstreamRequest request url in
  _ ← emit (UpstreamFetch out);
  orThrow (upstream out).

(** [cacheResponse(cacheKey, body, response, ttl, db, dbTableName,
    encryptionKey)]; [now] is [Date.now()] and [iv] the nonce drawn by
    [encrypt]. *)
Definition cacheResponse (cacheKey body : jsstring) (response : Response)
    (ttl : Z) (now : Z) (encryptionKey : CryptoKey) (iv : bytes) : M unit :=
  expires ← orThrow (Date_toISOString (now + ttl * 1000));
  let headers := headersToJSON (res_headers response) in
  parsed ← orThrow (JSON_parse body);
  gzipCompressedBody ← orThrow (compressBody parsed);
  encryptedBody ← orThrow (encrypt gzipCompressedBody encryptionKey iv);
  let bodyAsBlob := TextEncoder_encode encryptedBody in
  db_run_upsert cacheKey
    (mkRow bodyAsBlob (res_status response) headers expires
       (CURRENT_TIMESTAMP now)).

(** The [fetch] handler of the worker, for a request served while the clock
    reads [now] (one reading for [CURRENT_TIMESTAMP] and [Date.now()]). The
    [catch] block returns the upstream response when the [try] block had
    already obtained one, and a 500 response otherwise; this is the nesting
    of the two [tryCatch] below. *)
Definition fetch (request : Request) (env : Env)
    (upstream : Request -> option Response) (now : Z) (iv : bytes)
  : M Response :=
  let cacheServiceKey :=
    Headers_get (req_headers request) (js "x-cache-service-key") in
  if negb (isValidServiceKey cacheServiceKey (SERVICE_AUTH_KEY env))
  then mret (textResponse (js "Unauthorized") 401)
  else
    encryptionKey ← orThrow (getEncryptionKey (D1_CACHESTORE_ENCRYPTION_KEY env));
    let cacheKey := generateCacheKey (req_url request) in
    let ttl := parseTTL (req_headers request) in
    let supabaseUrl := SUPABASE_URL env in
    if negb (canCacheEndpoint (req_url request))
    then fetchFromSupabase request supabaseUrl upstream
    else
      tryCatch
        (cachedResponse ← getCachedResponse cacheKey now encryptionKey;
         match cachedResponse with
         | Some r => mret r
         | None =>
             supabaseResponse ← fetchFromSupabase request supabaseUrl upstream;
             tryCatch
               (if shouldCacheResponse request supabaseResponse
                then
                  let body := Response_text supabaseResponse in
                  _ ← cacheResponse cacheKey body supabaseResponse ttl now
                        encryptionKey iv;
                  mret supabaseResponse
                else mret supabaseResponse)
               (mret supabaseResponse)
         end)
        (mret (textResponse (js "Internal Server Error") 500)).

End Worker.

(** ** Observations on a trace *)

Definition isStoreAccess (e : event) : bool :=
  match e with
  | StoreRead _ | StoreWrite _ _ => true
  | UpstreamFetch _ => false
  end.

Definition isStoreWrite (e : event) : bool :=
  match e with
  | StoreWrite _ _ => true
  | _ => false
  end.

Definition isUpstreamFetch (e : event) : bool :=
  match e with
  | UpstreamFetch _ => true
  | _ => false
  end.

Definition storeAccesses (t : list event) : list event :=
  List.filter isStoreAccess t.

Definition storeWrites (t : list event) : list event :=
  List.filter isStoreWrite t.

Definition upstreamFetches (t : list event) : list event :=
  List.filter isUpstreamFetch t.

(** ** A reference runtime

    A small executable instance of [Runtime], used to run the handler on
    concrete requests and to show that [RuntimeLaws] can be met. JSON values
    are byte strings, the structural compressor reverses its input, the byte
    compressor is the identity on Latin-1 text, and the cipher seals a
    message by prefixing key and nonce, so that opening with another key or
    nonce is rejected. None of the general results depends on it. *)

Fixpoint stripPrefix (p l : bytes) : option bytes :=
  match p, l with
  | [], _ => Some l
  | _ :: _, [] => None
  | a :: p', b :: l' =>
      if bool_decide (a = b) then stripPrefix p' l' else None
  end.

Definition refHeadersToJSON (h : Headers) : jsstring :=
  concat
    (map (fun e => N.of_nat (length (fst e)) :: fst e
                   ++ N.of_nat (length (snd e)) :: snd e) h).

Fixpoint refHeadersOfJSON (fuel : nat) (s : jsstring) : option Headers :=
  match fuel, s with
  | _, [] => Some []
  | O, _ :: _ => None
  | S fuel', ln :: r =>
      let n := N.to_nat ln in
      match drop n r with
      | [] => None
      | lv :: r2 =>
          let m := N.to_nat lv in
          if (length r2 <? m)%nat then None
          else option_map (cons (take n r, take m r2))
                 (refHeadersOfJSON fuel' (drop m r2))
      end
  end.

Definition refRuntime : Runtime := {|
  json := bytes;
  JSON_parse s :=
    if forallb (fun c => c <? 256)%N s then Some (map ascii_of_N s) else None;
  JSON_stringify v := map N_of_ascii v;
  compress v := rev v;
  decompress v := Some (rev v);
  gzip s := map ascii_of_N s;
  ungzip bs := Some (map N_of_ascii bs);
  CryptoKey := bytes;
  importKey raw :=
    if existsb (Nat.eqb (length raw)) [16; 24; 32]%nat then Some raw else None;
  aesGcmEncrypt k iv m := k ++ iv ++ m;
  aesGcmDecrypt k iv c := stripPrefix (k ++ iv) c;
  headersToJSON := refHeadersToJSON;
  headersOfJSON s := refHeadersOfJSON (length s) s;
  upstreamURL url base := Some (base ++ url)
|}.

(** Bytes of a literal. *)
Definition lit (s : string) : bytes := list_ascii_of_string s.

(** The bindings, an upstream and two requests used in the examples. *)
Definition refEnv : Env :=
  mkEnv (Some (js "service-key"))
        (Some (js "0123456789abcdef0123456789abcdef"))
        (js "https://project.supabase.co") (js "supacache").

Definition refUpstream (r : Request) : option Response :=
  Some (mkResponse 200 [(js "content-type", js "application/json")]
          (lit "[1,2,3]")).

Definition refNonce : bytes := lit "abcdefghijkl".

Definition emptyWorld : world := mkWorld ∅ [].

Definition authHeaders : list (list N * list N) :=
  [(js "x-cache-service-key", js "service-key")].

Definition countriesURL : list N :=
  js "https://cache.example.workers.dev/rest/v1/countries?select=*".

Definition realtimeURL : list N :=
  js "https://cache.example.workers.dev/realtime/v1/websocket".

Definition queryOnlyURL : list N :=
  js "https://cache.example.workers.dev/rest/v1/items?select=*&next=/subscriptions/".

Definition getRequest : Request :=
  mkRequest (js "GET") countriesURL (authHeaders ++ [(js "x-ttl", js "30")]) None.

Definition headRequest : Request :=
  mkRequest (js "HEAD") countriesURL authHeaders None.

Definition postRequest : Request :=
  mkRequest (js "POST") countriesURL authHeaders (Some (js "[4]")).

(** 2024-12-30T10:00:00.000Z *)
Definition refTime : Z := 1735552800000.

(** The same bindings with another encryption secret. *)
Definition otherEnv : Env :=
  mkEnv (Some (js "service-key"))
        (Some (js "fedcba9876543210fedcba9876543210"))
        (js "https://project.supabase.co") (js "supacache").

Definition refKey : list ascii := lit "0123456789abcdef0123456789abcdef".

(** The world after [getRequest] was served at [refTime] from an empty
    store, under [refEnv] and under [otherEnv]. *)
Definition worldAfterGet : world :=
  snd (fetch (R := refRuntime) getRequest refEnv refUpstream refTime refNonce
         emptyWorld).

Definition worldSealedElsewhere : world :=
  snd (fetch (R := refRuntime) getRequest otherEnv refUpstream refTime
         refNonce emptyWorld).

Definition realtimeRequest : Request :=
  mkRequest (js "GET") realtimeURL authHeaders None.

Definition anonymousRealtimeRequest : Request :=
  mkRequest (js "GET") realtimeURL [] None.

Definition queryOnlyRequest : Request :=
  mkRequest (js "GET") queryOnlyURL authHeaders None.

Definition wrongKeyQueryOnlyRequest : Request :=
  mkRequest (js "GET") queryOnlyURL
    [(js "x-cache-service-key", js "guess")] None.

(** An upstream whose body is not JSON for the reference runtime (the
    UTF-8 bytes of U+20AC), one that fails, and a store whose row for
    [countriesURL] has header text that cannot be read back. *)
Definition nonJsonUpstream (r : Request) : option Response :=
  Some (mkResponse 200 [] (map ascii_of_N [226; 130; 172]%N)).

Definition failingUpstream (r : Request) : option Response := None.

Definition worldUnreadableHeaders : world :=
  mkWorld
    ((fun r => mkRow (row_body r) (row_status r) [5%N] (row_expires r)
                 (row_created_at r)) <$> w_store worldAfterGet)
    [].

(** The key a request presents. *)
Definition serviceKeyOf (request : Request) : option (list N) :=
  Headers_get (req_headers request) (js "x-cache-service-key").

(** * Properties *)

(** ** Strings *)

Lemma startsWith_app (p s : list N) : startsWith p (p ++ s) = true.
Proof.
  induction p as [|a p IH]; simpl; [reflexivity|].
  rewrite N.eqb_refl. exact IH.
Qed.

Lemma includes_app (pre p post : list N) :
  includes (pre ++ p ++ post) p = true.
Proof.
  induction pre as [|c pre IH]; simpl.
  - destruct (p ++ post) eqn:E; simpl.
    + destruct p; [reflexivity | discriminate].
    + rewrite <- E, startsWith_app. reflexivity.
  - rewrite IH. apply orb_true_r.
Qed.

Lemma startsWith_inv (p s : list N) :
  startsWith p s = true -> exists r, s = p ++ r.
Proof.
  revert s. induction p as [|a p IH]; intros s H.
  - exists s. reflexivity.
  - destruct s as [|b s]; simpl in H; [discriminate|].
    apply andb_true_iff in H as [Hab Hps].
    apply N.eqb_eq in Hab. subst b.
    destruct (IH _ Hps) as [r ->]. exists r. reflexivity.
Qed.

Lemma includes_inv (s p : list N) :
  includes s p = true -> exists pre post, s = pre ++ p ++ post.
Proof.
  induction s as [|c s IH]; simpl; intros H.
  - rewrite orb_false_r in H. apply startsWith_inv in H as [r ->].
    exists [], r. reflexivity.
  - apply orb_true_iff in H as [H|H].
    + apply startsWith_inv in H as [r ->]. exists [], r. reflexivity.
    + destruct (IH H) as (pre & post & ->).
      exists (c :: pre), post. reflexivity.
Qed.

(** ** TTL parsing *)

Lemma parseInt_backslash (s : list N) : parseInt (92%N :: s) = NaN.
Proof. reflexivity. Qed.

Lemma maxAgeAt_backslash (s g : list N) :
  maxAgeAt s = Some g -> exists ds, g = 92%N :: ds.
Proof.
  unfold maxAgeAt. destruct (startsWith _ s); [|discriminate].
  destruct (fst _) as [|d ds]; [discriminate|].
  intros [= <-]. eexists. reflexivity.
Qed.

Lemma maxAgeMatch_backslash (s g : list N) :
  maxAgeMatch s = Some g -> exists ds, g = 92%N :: ds.
Proof.
  induction s as [|c s IH].
  - intros H. discriminate H.
  - change (maxAgeMatch (c :: s))
      with (match maxAgeAt (c :: s) with
            | Some g => Some g
            | None => maxAgeMatch s
            end).
    destruct (maxAgeAt (c :: s)) eqn:E.
    + intros [= <-]. eapply maxAgeAt_backslash, E.
    + exact IH.
Qed.

(** Without an [X-TTL] value the result is the default, whatever the
    [Cache-Control] header says: the pattern of [parseTTL] only matches a
    backslash after [max-age=], and its group never reads as a number. *)
Lemma parseTTL_without_x_ttl (headers : list (list N * list N)) :
  truthy (Headers_get headers (js "x-ttl")) = false ->
  parseTTL headers = defaultTTL.
Proof.
  intros H. unfold parseTTL. rewrite H.
  destruct (truthy (Headers_get headers (js "Cache-Control"))); [|reflexivity].
  destruct (maxAgeMatch _) as [g|] eqn:E; [|reflexivity].
  apply maxAgeMatch_backslash in E as [ds ->].
  rewrite parseInt_backslash. reflexivity.
Qed.

(** C2: a request without [X-TTL] whose [Cache-Control] is [max-age=300]
    gets the default of 900 seconds, not 300. *)
Theorem C2_max_age_ignored :
  Headers_get [(js "cache-control", js "max-age=300")] (js "x-ttl") = None /\
  parseTTL [(js "cache-control", js "max-age=300")] = 900%Z.
Proof. split; reflexivity. Qed.

(** ** Effects of the store adapter and of the upstream call *)

Section Effects.
Context {R : Runtime}.

Lemma fetchFromSupabase_eq request supabaseUrl upstream w :
  fetchFromSupabase request supabaseUrl upstream w =
  match upstreamURL (req_url request) supabaseUrl with
  | None => (None, w)
  | Some u =>
      (upstream (upstreamRequest request u),
       mkWorld (w_store w)
         (w_trace w ++ [UpstreamFetch (upstreamRequest request u)]))
  end.
Proof.
  unfold fetchFromSupabase, mbind, M_bind, orThrow.
  destruct (upstreamURL _ _) as [u|]; [|reflexivity].
  cbn. destruct (upstream _); reflexivity.
Qed.

Lemma getCachedResponse_world cacheKey now k w :
  snd (getCachedResponse cacheKey now k w) =
  mkWorld (w_store w) (w_trace w ++ [StoreRead cacheKey]).
Proof.
  unfold getCachedResponse, mbind, M_bind, db_first. cbn.
  destruct (w_store w !! cacheKey) as [row|]; [|reflexivity].
  destruct (sqlite_text_gt _ _); [|reflexivity].
  destruct (parseD1Row _ _ _) as [data|]; [|reflexivity].
  destruct (headersOfJSON _); [|reflexivity]. cbn.
  destruct (newResponse _ _ _); reflexivity.
Qed.

Lemma cacheResponse_cases cacheKey body response ttl now k iv w :
  cacheResponse cacheKey body response ttl now k iv w = (None, w) \/
  exists row,
    cacheResponse cacheKey body response ttl now k iv w =
    (Some tt, mkWorld (<[cacheKey := row]> (w_store w))
                (w_trace w ++ [StoreWrite cacheKey row])).
Proof.
  unfold cacheResponse, mbind, M_bind, orThrow.
  destruct (Date_toISOString _); [|left; reflexivity]. cbn.
  destruct (JSON_parse _); [|left; reflexivity]. cbn.
  destruct (compressBody _); [|left; reflexivity]. cbn.
  destruct (encrypt _ _ _); [|left; reflexivity]. cbn.
  right. eexists. reflexivity.
Qed.

(** *** The handler, branch by branch *)

Lemma fetch_unauthorized request env upstream now iv w :
  isValidServiceKey (serviceKeyOf request) (SERVICE_AUTH_KEY env) = false ->
  fetch request env upstream now iv w =
  (Some (textResponse (js "Unauthorized") 401), w).
Proof.
  unfold fetch, serviceKeyOf. intros ->. reflexivity.
Qed.

Lemma fetch_key_import_fails request env upstream now iv w :
  isValidServiceKey (serviceKeyOf request) (SERVICE_AUTH_KEY env) = true ->
  getEncryptionKey (D1_CACHESTORE_ENCRYPTION_KEY env) = None ->
  fetch request env upstream now iv w = (None, w).
Proof.
  unfold fetch, serviceKeyOf, mbind, M_bind. intros -> ->. reflexivity.
Qed.

Lemma fetch_bypass request env upstream now iv w k :
  isValidServiceKey (serviceKeyOf request) (SERVICE_AUTH_KEY env) = true ->
  getEncryptionKey (D1_CACHESTORE_ENCRYPTION_KEY env) = Some k ->
  canCacheEndpoint (req_url request) = false ->
  fetch request env upstream now iv w =
  fetchFromSupabase request (SUPABASE_URL env) upstream w.
Proof.
  unfold fetch, serviceKeyOf, mbind, M_bind. intros -> -> ->. reflexivity.
Qed.

(** The cacheable path, with the two [try] scopes resolved. *)
Lemma fetch_cacheable request env upstream now iv w k :
  isValidServiceKey (serviceKeyOf request) (SERVICE_AUTH_KEY env) = true ->
  getEncryptionKey (D1_CACHESTORE_ENCRYPTION_KEY env) = Some k ->
  canCacheEndpoint (req_url request) = true ->
  let cacheKey := generateCacheKey (req_url request) in
  let w1 := mkWorld (w_store w) (w_trace w ++ [StoreRead cacheKey]) in
  let failure := textResponse (js "Internal Server Error") 500 in
  fetch request env upstream now iv w =
  match fst (getCachedResponse cacheKey now k w) with
  | None => (Some failure, w1)
  | Some (Some cached) => (Some cached, w1)
  | Some None =>
      match upstreamURL (req_url request) (SUPABASE_URL env) with
      | None => (Some failure, w1)
      | Some u =>
          let out := upstreamRequest request u in
          let w2 := mkWorld (w_store w)
                      (w_trace w ++ [StoreRead cacheKey] ++ [UpstreamFetch out]) in
          match upstream out with
          | None => (Some failure, w2)
          | Some response =>
              if shouldCacheResponse request response then
                (Some response,
                 snd (cacheResponse cacheKey (Response_text response) response
                        (parseTTL (req_headers request)) now k iv w2))
              else (Some response, w2)
          end
      end
  end.
Proof.
  intros Hk He Hc cacheKey w1 failure.
  unfold fetch. fold (serviceKeyOf request). rewrite Hk.
  unfold mbind at 1, M_bind at 1. rewrite He. cbn [orThrow mret M_ret negb].
  rewrite Hc. cbn [negb]. fold cacheKey.
  unfold tryCatch at 1. unfold mbind at 1, M_bind at 1.
  pose proof (getCachedResponse_world cacheKey now k w) as Hw.
  destruct (getCachedResponse cacheKey now k w) as [[[cached|]|] w'];
    cbn [fst snd] in *; subst w'; try reflexivity.
  unfold mbind at 1, M_bind at 1. rewrite fetchFromSupabase_eq.
  destruct (upstreamURL _ _) as [u|]; [|reflexivity].
  cbn [w_store w_trace]. rewrite <- app_assoc.
  destruct (upstream _) as [response|]; [|reflexivity].
  unfold tryCatch.
  destruct (shouldCacheResponse request response); [|reflexivity].
  unfold mbind, M_bind.
  destruct (cacheResponse _ _ _ _ _ _ _ _) as [[[]|] w3]; reflexivity.
Qed.

End Effects.

(** ** Eligibility, bypass and authentication *)

Lemma storeAccesses_upstream t request :
  storeAccesses (t ++ [UpstreamFetch request]) = storeAccesses t.
Proof. unfold storeAccesses. rewrite List.filter_app. cbn. apply app_nil_r. Qed.

Lemma storeWrites_read t key :
  storeWrites (t ++ [StoreRead key]) = storeWrites t.
Proof. unfold storeWrites. rewrite List.filter_app. cbn. apply app_nil_r. Qed.

Lemma storeWrites_read_upstream t key request :
  storeWrites (t ++ [StoreRead key] ++ [UpstreamFetch request]) = storeWrites t.
Proof. unfold storeWrites. rewrite !List.filter_app. cbn. apply app_nil_r. Qed.

(** What a positive answer of [shouldCacheResponse] guarantees. *)
Lemma shouldCacheResponse_true request response :
  shouldCacheResponse request response = true ->
  (req_method request = js "GET" \/ req_method request = js "HEAD") /\
  (200 <= res_status response <= 299)%Z /\
  (forall v, Headers_get (res_headers response) (js "Cache-Control") = Some v ->
             includes v (js "no-store") = false) /\
  (includes (req_url request) (js "/rest/") = true ->
   includes (req_url request) (js "?select=") = true).
Proof.
  unfold shouldCacheResponse, Response_ok.
  destruct (200 <=? res_status response)%Z eqn:Hlo; [|discriminate].
  destruct (res_status response <=? 299)%Z eqn:Hhi; [|discriminate].
  cbn [andb negb].
  destruct (_ || _)%bool; [discriminate|].
  destruct (match Headers_get _ _ with Some _ => _ | None => _ end) eqn:Hcc;
    [discriminate|].
  destruct (negb _ && negb _) eqn:Hm; [discriminate|].
  destruct (includes _ _ && negb _) eqn:Hr; [discriminate|].
  intros _. repeat split.
  - apply andb_false_iff in Hm as [Hm|Hm];
      apply negb_false_iff, bool_decide_eq_true_1 in Hm; auto.
  - apply Z.leb_le, Hlo.
  - apply Z.leb_le, Hhi.
  - intros v Hv. rewrite Hv in Hcc. exact Hcc.
  - intros Hrest. rewrite Hrest in Hr. apply negb_false_iff in Hr. exact Hr.
Qed.

Section Store_writes.
Context {R : Runtime}.

(** Either the request leaves the store as it was, or the upstream answered
    with a response that [shouldCacheResponse] accepts. *)
Lemma fetch_writes_only_if_eligible request env upstream now iv w :
  let r := fetch request env upstream now iv w in
  (w_store (snd r) = w_store w /\
   storeWrites (w_trace (snd r)) = storeWrites (w_trace w))
  \/ (exists out response,
        upstream out = Some response /\ fst r = Some response /\
        shouldCacheResponse request response = true).
Proof.
  intros r. subst r.
  destruct (isValidServiceKey (serviceKeyOf request) (SERVICE_AUTH_KEY env))
    eqn:Hk.
  2:{ rewrite fetch_unauthorized by exact Hk. left. split; reflexivity. }
  destruct (getEncryptionKey (D1_CACHESTORE_ENCRYPTION_KEY env)) as [k|] eqn:He.
  2:{ rewrite fetch_key_import_fails by assumption. left. split; reflexivity. }
  destruct (canCacheEndpoint (req_url request)) eqn:Hc.
  2:{ rewrite (fetch_bypass _ _ _ _ _ _ k) by assumption.
      rewrite fetchFromSupabase_eq. left.
      destruct (upstreamURL _ _); cbn; [|split; reflexivity].
      split; [reflexivity|].
      unfold storeWrites. rewrite List.filter_app. cbn. apply app_nil_r. }
  rewrite (fetch_cacheable _ _ _ _ _ _ k) by assumption.
  destruct (fst (getCachedResponse _ _ _ _)) as [[cached|]|]; cbn [fst snd w_store w_trace];
    try (left; split; [reflexivity | apply storeWrites_read]).
  destruct (upstreamURL _ _) as [u|]; cbn [fst snd w_store w_trace];
    try (left; split; [reflexivity | apply storeWrites_read]).
  destruct (upstream _) as [response|] eqn:Hup; cbn [fst snd w_store w_trace];
    try (left; split; [reflexivity | apply storeWrites_read_upstream]).
  destruct (shouldCacheResponse request response) eqn:Hs;
    cbn [fst snd w_store w_trace];
    try (left; split; [reflexivity | apply storeWrites_read_upstream]).
  right. eauto.
Qed.

End Store_writes.

Section Handler_properties.
Context {R : Runtime}.

(** C5: a response is written to the store only when the upstream answered
    with a response for which all gating conditions hold (method GET or
    HEAD, status in 200..299, no [no-store] in [Cache-Control], and the
    [/rest/] heuristic); in particular a POST request, a [no-store] response
    or a response outside 200..299 leaves the store untouched. *)
Theorem C5_eligibility_gating request env upstream now iv w :
  let r := fetch request env upstream now iv w in
  ((w_store (snd r) = w_store w /\
    storeWrites (w_trace (snd r)) = storeWrites (w_trace w))
   \/ (exists out response,
         upstream out = Some response /\ fst r = Some response /\
         shouldCacheResponse request response = true /\
         (req_method request = js "GET" \/ req_method request = js "HEAD") /\
         (200 <= res_status response <= 299)%Z /\
         (forall v,
            Headers_get (res_headers response) (js "Cache-Control") = Some v ->
            includes v (js "no-store") = false))) /\
  ((forall out response,
      upstream out = Some response ->
      req_method request = js "POST"
      \/ (exists v,
            Headers_get (res_headers response) (js "Cache-Control") = Some v /\
            includes v (js "no-store") = true)
      \/ (res_status response < 200)%Z \/ (299 < res_status response)%Z) ->
   w_store (snd r) = w_store w /\
   storeWrites (w_trace (snd r)) = storeWrites (w_trace w)).
Proof.
  intros r.
  destruct (fetch_writes_only_if_eligible request env upstream now iv w)
    as [Hno | (out & response & Hup & Hr & Hs)]; fold r in Hno || fold r in Hr.
  - split; [left; exact Hno | intros _; exact Hno].
  - destruct (shouldCacheResponse_true _ _ Hs) as (Hm & Hst & Hcc & _).
    split.
    + right. exists out, response. repeat split; try assumption; apply Hst.
    + intros Hbad. exfalso.
      destruct (Hbad _ _ Hup) as [Hpost | [(v & Hv & Hns) | [Hlo | Hhi]]].
      * destruct Hm as [Hm | Hm]; rewrite Hm in Hpost; discriminate Hpost.
      * rewrite (Hcc _ Hv) in Hns. discriminate Hns.
      * lia.
      * lia.
Qed.

(** C7: a request whose [X-Cache-Service-Key] header is missing or differs
    from [SERVICE_AUTH_KEY] is answered with status 401 and the world is
    left as it was: no upstream call, no store read, no store write. *)
Theorem C7_unauthorized request env upstream now iv w :
  Headers_get (req_headers request) (js "x-cache-service-key") = None
  \/ Headers_get (req_headers request) (js "x-cache-service-key")
     <> SERVICE_AUTH_KEY env ->
  let r := fetch request env upstream now iv w in
  (exists response, fst r = Some response /\ res_status response = 401%Z) /\
  snd r = w /\
  upstreamFetches (w_trace (snd r)) = upstreamFetches (w_trace w) /\
  storeAccesses (w_trace (snd r)) = storeAccesses (w_trace w).
Proof.
  intros H r.
  assert (Hk : isValidServiceKey (serviceKeyOf request) (SERVICE_AUTH_KEY env)
               = false).
  { unfold serviceKeyOf, isValidServiceKey.
    destruct H as [-> | H]; [reflexivity|].
    destruct (Headers_get _ _) as [k|]; [|reflexivity].
    destruct (SERVICE_AUTH_KEY env) as [e|]; [|reflexivity].
    apply bool_decide_eq_false_2. congruence. }
  subst r. rewrite fetch_unauthorized by exact Hk. cbn [fst snd].
  split; [eexists; split; reflexivity|]. repeat split.
Qed.

(** What a bypass URL entails, for every request and every binding. *)
Lemma bypass_effects request env upstream now iv w :
  canCacheEndpoint (req_url request) = false ->
  let r := fetch request env upstream now iv w in
  w_store (snd r) = w_store w /\
  storeAccesses (w_trace (snd r)) = storeAccesses (w_trace w) /\
  (forall k u,
     isValidServiceKey
       (Headers_get (req_headers request) (js "x-cache-service-key"))
       (SERVICE_AUTH_KEY env) = true ->
     getEncryptionKey (D1_CACHESTORE_ENCRYPTION_KEY env) = Some k ->
     upstreamURL (req_url request) (SUPABASE_URL env) = Some u ->
     r = (upstream (upstreamRequest request u),
          mkWorld (w_store w)
            (w_trace w ++ [UpstreamFetch (upstreamRequest request u)]))).
Proof.
  intros Hc r. subst r.
  destruct (isValidServiceKey (serviceKeyOf request) (SERVICE_AUTH_KEY env))
    eqn:Hk.
  2:{ rewrite fetch_unauthorized by exact Hk. cbn [snd].
      repeat split. unfold serviceKeyOf in Hk. congruence. }
  destruct (getEncryptionKey (D1_CACHESTORE_ENCRYPTION_KEY env)) as [k|] eqn:He.
  2:{ rewrite fetch_key_import_fails by assumption. cbn [snd].
      repeat split. congruence. }
  rewrite (fetch_bypass _ _ _ _ _ _ k) by assumption.
  rewrite fetchFromSupabase_eq.
  destruct (upstreamURL _ _) as [u|]; cbn [snd w_store w_trace].
  - split; [reflexivity|]. split; [apply storeAccesses_upstream|].
    intros k' u' _ _ [= <-]. reflexivity.
  - repeat split. congruence.
Qed.

(** C6, as the code has it: on a bypass URL the handler never reads or
    writes the store, whatever the method and headers; once the service key
    is accepted and the encryption key imported, its whole effect is one
    upstream call whose result it returns unchanged. *)
Theorem C6_bypass_precedence request env upstream now iv w :
  canCacheEndpoint (req_url request) = false ->
  let r := fetch request env upstream now iv w in
  w_store (snd r) = w_store w /\
  storeAccesses (w_trace (snd r)) = storeAccesses (w_trace w) /\
  (forall k u,
     isValidServiceKey
       (Headers_get (req_headers request) (js "x-cache-service-key"))
       (SERVICE_AUTH_KEY env) = true ->
     getEncryptionKey (D1_CACHESTORE_ENCRYPTION_KEY env) = Some k ->
     upstreamURL (req_url request) (SUPABASE_URL env) = Some u ->
     r = (upstream (upstreamRequest request u),
          mkWorld (w_store w)
            (w_trace w ++ [UpstreamFetch (upstreamRequest request u)]))).
Proof. exact (bypass_effects request env upstream now iv w). Qed.

(** C9, as the code has it: the bypass substrings are searched in the whole
    URL string, so a URL that contains one of them anywhere, for instance
    in its query string, is not cacheable; the handler then never touches
    the store and, once the service key is accepted and the encryption key
    imported, proxies the request to the upstream. *)
Theorem C9_bypass_matches_whole_url request env upstream now iv w
    (pre path post : list N) :
  In path bypassCacheOnPath ->
  req_url request = pre ++ path ++ post ->
  let r := fetch request env upstream now iv w in
  canCacheEndpoint (req_url request) = false /\
  w_store (snd r) = w_store w /\
  storeAccesses (w_trace (snd r)) = storeAccesses (w_trace w) /\
  (forall k u,
     isValidServiceKey
       (Headers_get (req_headers request) (js "x-cache-service-key"))
       (SERVICE_AUTH_KEY env) = true ->
     getEncryptionKey (D1_CACHESTORE_ENCRYPTION_KEY env) = Some k ->
     upstreamURL (req_url request) (SUPABASE_URL env) = Some u ->
     r = (upstream (upstreamRequest request u),
          mkWorld (w_store w)
            (w_trace w ++ [UpstreamFetch (upstreamRequest request u)]))).
Proof.
  intros Hin Hurl r.
  assert (Hc : canCacheEndpoint (req_url request) = false).
  { unfold canCacheEndpoint. apply negb_false_iff, existsb_exists.
    exists path. split; [exact Hin|]. rewrite Hurl. apply includes_app. }
  split; [exact Hc|]. exact (bypass_effects request env upstream now iv w Hc).
Qed.

End Handler_properties.

(** ** Base64 *)

(** Induction over a byte string three bytes at a time. *)
Lemma bytes_ind3 (P : list ascii -> Prop) :
  P [] -> (forall a, P [a]) -> (forall a b, P [a; b]) ->
  (forall a b c r, P r -> P (a :: b :: c :: r)) ->
  forall bs, P bs.
Proof.
  intros H0 H1 H2 H3.
  fix IH 1.
  intros [|a [|b [|c r]]]; [exact H0 | apply H1 | apply H2 | apply H3, IH].
Qed.

Lemma sixBits_sextet1 a : sixBits (sextet1 a).
Proof. destruct a. cbn. repeat eexists. Qed.

Lemma sixBits_sextet2 a b : sixBits (sextet2 a b).
Proof. destruct a, b. cbn. repeat eexists. Qed.

Lemma sixBits_sextet3 a b : sixBits (sextet3 a b).
Proof. destruct a, b. cbn. repeat eexists. Qed.

Lemma sixBits_sextet4 a : sixBits (sextet4 a).
Proof. destruct a. cbn. repeat eexists. Qed.

Create HintDb b64.

#[local] Hint Resolve sixBits_sextet1 sixBits_sextet2 sixBits_sextet3
  sixBits_sextet4 : b64.

Lemma b64index_b64char x : sixBits x -> b64index (b64char x) = Some x.
Proof.
  intros (b0 & b1 & b2 & b3 & b4 & b5 & ->).
  destruct b0, b1, b2, b3, b4, b5; reflexivity.
Qed.

Lemma b64char_not_pad x : sixBits x -> (b64char x =? 61)%N = false.
Proof.
  intros (b0 & b1 & b2 & b3 & b4 & b5 & ->).
  destruct b0, b1, b2, b3, b4, b5; reflexivity.
Qed.

Lemma b64char_not_space x : sixBits x -> isAsciiWhitespace (b64char x) = false.
Proof.
  intros (b0 & b1 & b2 & b3 & b4 & b5 & ->).
  destruct b0, b1, b2, b3, b4, b5; reflexivity.
Qed.

Lemma octet1_sextets a b : octet1 (sextet1 a) (sextet2 a b) = a.
Proof. destruct a, b. reflexivity. Qed.

Lemma octet2_sextets a b c : octet2 (sextet2 a b) (sextet3 b c) = b.
Proof. destruct a, b, c. reflexivity. Qed.

Lemma octet3_sextets b c : octet3 (sextet3 b c) (sextet4 c) = c.
Proof. destruct b, c. reflexivity. Qed.

Lemma b64sextets_sixBits bs : Forall sixBits (b64sextets bs).
Proof.
  induction bs as [|a|a b|a b c r IH] using bytes_ind3; cbn;
    repeat constructor; auto with b64.
Qed.

Lemma b64decode_sextets bs : b64decode (b64sextets bs) = bs.
Proof.
  induction bs as [|a|a b|a b c r IH] using bytes_ind3; cbn.
  - reflexivity.
  - now rewrite octet1_sextets.
  - now rewrite octet1_sextets, octet2_sextets.
  - now rewrite octet1_sextets, octet2_sextets, octet3_sextets, IH.
Qed.

Lemma b64indices_chars sx :
  Forall sixBits sx -> b64indices (map b64char sx) = Some sx.
Proof.
  induction 1 as [|x sx Hx _ IH]; cbn; [reflexivity|].
  now rewrite (b64index_b64char x Hx), IH.
Qed.

Lemma dropPadding_cons c s :
  (c =? 61)%N = false -> dropPadding (c :: s) = c :: dropPadding s.
Proof. intros H. cbn. rewrite H. reflexivity. Qed.

Lemma dropPadding_b64encode bs :
  dropPadding (b64encode bs) = map b64char (b64sextets bs).
Proof.
  induction bs as [|a|a b|a b c r IH] using bytes_ind3.
  - reflexivity.
  - cbn [b64encode b64sextets map].
    rewrite !dropPadding_cons by auto using b64char_not_pad with b64.
    reflexivity.
  - cbn [b64encode b64sextets map].
    rewrite !dropPadding_cons by auto using b64char_not_pad with b64.
    reflexivity.
  - cbn [b64encode b64sextets map].
    rewrite !dropPadding_cons by auto using b64char_not_pad with b64.
    now rewrite IH.
Qed.

Lemma b64encode_no_space bs :
  List.filter (fun c => negb (isAsciiWhitespace c)) (b64encode bs) = b64encode bs.
Proof.
  induction bs as [|a|a b|a b c r IH] using bytes_ind3;
    cbn [b64encode List.filter];
    rewrite ?b64char_not_space by auto with b64; cbn [negb];
    rewrite ?IH; reflexivity.
Qed.

Lemma b64encode_length bs : (length (b64encode bs) mod 4 = 0)%nat.
Proof.
  induction bs as [|a|a b|a b c r IH] using bytes_ind3; try reflexivity.
  cbn [b64encode length].
  change (S (S (S (S (length (b64encode r))))))
    with (4 + length (b64encode r))%nat.
  rewrite <- Nat.Div0.add_mod_idemp_r, IH. reflexivity.
Qed.

Lemma b64sextets_length bs : (length (b64sextets bs) mod 4 <> 1)%nat.
Proof.
  induction bs as [|a|a b|a b c r IH] using bytes_ind3; try (cbn; lia).
  cbn [b64sextets length].
  change (S (S (S (S (length (b64sextets r))))))
    with (4 + length (b64sextets r))%nat.
  rewrite <- Nat.Div0.add_mod_idemp_l. cbn [Nat.modulo].
  exact IH.
Qed.

(** [atob] inverts the encoder on every byte string. *)
Lemma atob_b64encode bs : atob (b64encode bs) = Some (fromCharCodes bs).
Proof.
  unfold atob. rewrite b64encode_no_space, b64encode_length.
  cbn [Nat.eqb]. rewrite dropPadding_b64encode, length_map.
  destruct (Nat.eqb_spec (length (b64sextets bs) mod 4) 1) as [E|_].
  - destruct (b64sextets_length bs E).
  - rewrite b64indices_chars by apply b64sextets_sixBits.
    cbn. now rewrite b64decode_sextets.
Qed.

Lemma bytes_of_fromCharCodes bs : map ascii_of_N (fromCharCodes bs) = bs.
Proof.
  unfold fromCharCodes. rewrite map_map.
  induction bs as [|a bs IH]; cbn; [reflexivity|].
  now rewrite ascii_N_embedding, IH.
Qed.

Lemma fromCharCodes_latin1 (bs : list ascii) :
  forallb (fun c => c <? 256)%N (fromCharCodes bs) = true.
Proof.
  apply forallb_forall. intros c Hc.
  apply in_map_iff in Hc as (a & <- & _).
  apply N.ltb_lt, N_ascii_bounded.
Qed.

Lemma btoa_fromCharCodes bs : btoa (fromCharCodes bs) = Some (b64encode bs).
Proof.
  unfold btoa. now rewrite bytes_of_fromCharCodes, fromCharCodes_latin1.
Qed.

Lemma b64char_plain x :
  sixBits x -> (b64char x <? 128)%N = true /\ (b64char x =? 58)%N = false.
Proof.
  intros (b0 & b1 & b2 & b3 & b4 & b5 & ->).
  destruct b0, b1, b2, b3, b4, b5; split; reflexivity.
Qed.

Lemma b64encode_plain_or_pad bs : Forall plain (b64encode bs).
Proof.
  assert (Hc : forall x, sixBits x -> plain (b64char x)).
  { intros x Hx. destruct (b64char_plain x Hx) as [H1 H2].
    split; [apply N.ltb_lt, H1 | apply N.eqb_neq, H2]. }
  assert (Hp : plain 61%N) by (split; [reflexivity | discriminate]).
  induction bs as [|a|a b|a b c r IH] using bytes_ind3; cbn [b64encode].
  - constructor.
  - repeat (apply Forall_cons; split); auto with b64.
  - repeat (apply Forall_cons; split); auto with b64.
  - repeat (apply Forall_cons; split; [auto with b64|]). exact IH.
Qed.

(** ** UTF-8 on ASCII text *)

Lemma TextEncoder_encode_ascii_app (a b : list N) :
  Forall (fun c => c < 128)%N a ->
  TextEncoder_encode (a ++ b) = map ascii_of_N a ++ TextEncoder_encode b.
Proof.
  unfold TextEncoder_encode.
  induction 1 as [|c a Hc _ IH]; [reflexivity|].
  cbn [app codePoints].
  assert (isHighSurrogate c = false) as ->.
  { unfold isHighSurrogate. apply andb_false_iff. left. apply N.leb_gt. lia. }
  assert (isLowSurrogate c = false) as ->.
  { unfold isLowSurrogate. apply andb_false_iff. left. apply N.leb_gt. lia. }
  cbn [map concat]. rewrite IH. unfold utf8_of_codePoint.
  apply N.ltb_lt in Hc. rewrite Hc. reflexivity.
Qed.

Lemma TextEncoder_encode_ascii (a : list N) :
  Forall (fun c => c < 128)%N a -> TextEncoder_encode a = map ascii_of_N a.
Proof.
  intros H. rewrite <- (app_nil_r a) at 1.
  rewrite TextEncoder_encode_ascii_app by exact H. apply app_nil_r.
Qed.

Lemma utf8_run_ascii (a : list N) :
  Forall (fun c => c < 128)%N a -> utf8_run utf8_init a = a.
Proof.
  induction 1 as [|c a Hc _ IH]; [reflexivity|].
  cbn [utf8_run]. unfold utf8_step. cbn [u_needed utf8_init N.eqb].
  unfold utf8_lead. assert ((c <=? 127)%N = true) as -> by (apply N.leb_le; lia).
  cbn [app]. now rewrite IH.
Qed.

Lemma TextDecoder_decode_ascii (a : list N) :
  Forall (fun c => c < 128)%N a -> TextDecoder_decode (map ascii_of_N a) = a.
Proof.
  intros H. unfold TextDecoder_decode.
  assert (E : map N_of_ascii (map ascii_of_N a) = a).
  { induction H as [|c a Hc _ IH]; cbn; [reflexivity|].
    rewrite N_ascii_embedding by lia. now rewrite IH. }
  rewrite E.
  assert (E' : stripBOM a = a).
  { destruct H as [|b0 a' H0 H]; [reflexivity|].
    destruct a' as [|b1 [|b2 r]]; try reflexivity.
    unfold stripBOM.
    assert ((b0 =? 239)%N = false) as -> by (apply N.eqb_neq; lia).
    reflexivity. }
  rewrite E', utf8_run_ascii by exact H.
  clear E E'. induction H as [|c a Hc _ IH]; cbn; [reflexivity|].
  unfold utf16_of_codePoint at 1.
  assert ((c <? 65536)%N = true) as -> by (apply N.ltb_lt; lia).
  cbn. now rewrite IH.
Qed.

(** ASCII text survives [TextEncoder] followed by [TextDecoder]. *)
Lemma text_round_trip_ascii (a : list N) :
  Forall (fun c => c < 128)%N a ->
  TextDecoder_decode (TextEncoder_encode a) = a.
Proof.
  intros H. rewrite TextEncoder_encode_ascii by exact H.
  apply TextDecoder_decode_ascii, H.
Qed.

(** ** UTF-8 on well-formed text *)

Ltac Zify.zify_post_hook ::= Z.to_euclidean_division_equations.

Ltac ncase :=
  match goal with
  | |- context [N.leb ?a ?b] =>
      first [ replace (N.leb a b) with true by (symmetry; apply N.leb_le; lia)
            | replace (N.leb a b) with false by (symmetry; apply N.leb_gt; lia)
            | destruct (N.leb_spec a b) ]
  | |- context [N.ltb ?a ?b] =>
      first [ replace (N.ltb a b) with true by (symmetry; apply N.ltb_lt; lia)
            | replace (N.ltb a b) with false by (symmetry; apply N.ltb_ge; lia)
            | destruct (N.ltb_spec a b) ]
  | |- context [N.eqb ?a ?b] =>
      first [ replace (N.eqb a b) with false by (symmetry; apply N.eqb_neq; lia)
            | replace (N.eqb a b) with true by (symmetry; apply N.eqb_eq; lia)
            | destruct (N.eqb_spec a b) ]
  end.

Ltac utf8_byte :=
  cbn [utf8_run]; unfold utf8_step, utf8_lead;
  cbn [u_cp u_seen u_needed u_lower u_upper utf8_init];
  repeat ncase;
  cbn [negb andb app u_cp u_seen u_needed u_lower u_upper].

Lemma utf8_run_codePoint cp rest :
  scalar cp ->
  utf8_run utf8_init (map N_of_ascii (utf8_of_codePoint cp) ++ rest) =
  cp :: utf8_run utf8_init rest.
Proof.
  intros [Hmax Hsur]. unfold utf8_of_codePoint.
  destruct (N.ltb_spec cp 128); [|destruct (N.ltb_spec cp 2048);
    [|destruct (N.ltb_spec cp 65536)]];
    cbn [map app]; rewrite !N_ascii_embedding by lia.
  - utf8_byte. reflexivity.
  - utf8_byte. utf8_byte. f_equal. lia.
  - utf8_byte; utf8_byte; utf8_byte; f_equal; lia.
  - utf8_byte; utf8_byte; utf8_byte; utf8_byte; f_equal; lia.
Qed.

Lemma utf8_run_codePoints cps :
  Forall scalar cps ->
  utf8_run utf8_init (map N_of_ascii (concat (map utf8_of_codePoint cps))) = cps.
Proof.
  induction 1 as [|cp cps Hcp _ IH]; [reflexivity|].
  cbn [map concat]. rewrite map_app, utf8_run_codePoint by exact Hcp.
  now rewrite IH.
Qed.

(** Induction over a string one or two units at a time. *)
Lemma units_ind2 (P : list N -> Prop) :
  P [] -> (forall a, P [a]) ->
  (forall a b l, P l -> P (b :: l) -> P (a :: b :: l)) ->
  forall l, P l.
Proof.
  intros H0 H1 H2 l.
  enough (P l /\ forall a, P (a :: l)) as [H _] by exact H.
  induction l as [|b l [IH1 IH2]]; split; auto.
Qed.

Lemma surrogate_cases c :
  isHighSurrogate c = true /\ (55296 <= c <= 56319)%N
  \/ isHighSurrogate c = false /\ ~ (55296 <= c <= 56319)%N.
Proof.
  unfold isHighSurrogate.
  destruct (N.leb_spec 55296 c), (N.leb_spec c 56319); cbn; [left | right ..];
    split; (reflexivity || lia).
Qed.

Lemma low_surrogate_cases c :
  isLowSurrogate c = true /\ (56320 <= c <= 57343)%N
  \/ isLowSurrogate c = false /\ ~ (56320 <= c <= 57343)%N.
Proof.
  unfold isLowSurrogate.
  destruct (N.leb_spec 56320 c), (N.leb_spec c 57343); cbn; [left | right ..];
    split; (reflexivity || lia).
Qed.

Lemma utf16_of_scalar_unit c :
  (c < 65536)%N -> utf16_of_codePoint c = [c].
Proof.
  intros H. unfold utf16_of_codePoint. apply N.ltb_lt in H. now rewrite H.
Qed.

Lemma utf16_of_pair c d :
  (55296 <= c <= 56319)%N -> (56320 <= d <= 57343)%N ->
  utf16_of_codePoint (65536 + (c - 55296) * 1024 + (d - 56320)) = [c; d].
Proof.
  intros Hc Hd. unfold utf16_of_codePoint.
  assert (((65536 + (c - 55296) * 1024 + (d - 56320)) <? 65536)%N = false)
    as -> by (apply N.ltb_ge; lia).
  f_equal; [|f_equal]; lia.
Qed.

Lemma codePoints_unit c s :
  isHighSurrogate c = false -> isLowSurrogate c = false ->
  codePoints (c :: s) = c :: codePoints s.
Proof. intros H1 H2. cbn [codePoints]. now rewrite H1, H2. Qed.

Lemma codePoints_pair c d s :
  isHighSurrogate c = true -> isLowSurrogate d = true ->
  codePoints (c :: d :: s) =
  (65536 + (c - 55296) * 1024 + (d - 56320))%N :: codePoints s.
Proof. intros H1 H2. cbn [codePoints]. now rewrite H1, H2. Qed.

Lemma wellFormed_unit c s :
  isHighSurrogate c = false ->
  wellFormed (c :: s) = true ->
  (c < 65536)%N /\ isLowSurrogate c = false /\ wellFormed s = true.
Proof.
  intros H1. cbn [wellFormed]. rewrite H1. intros Hw.
  apply andb_true_iff in Hw as [Hw Hs]. apply andb_true_iff in Hw as [Hc Hl].
  apply N.ltb_lt in Hc. apply negb_true_iff in Hl. auto.
Qed.

Lemma wellFormed_pair c s :
  isHighSurrogate c = true ->
  wellFormed (c :: s) = true ->
  exists d s', s = d :: s' /\ isLowSurrogate d = true /\ wellFormed s' = true.
Proof.
  intros H1. cbn [wellFormed]. rewrite H1.
  destruct s as [|d s']; [discriminate|]. intros Hw.
  apply andb_true_iff in Hw as [Hd Hs]. eauto.
Qed.

Lemma codePoints_wellFormed s :
  wellFormed s = true ->
  Forall scalar (codePoints s) /\
  concat (map utf16_of_codePoint (codePoints s)) = s.
Proof.
  induction s as [|a|a b l IHl IHbl] using units_ind2; intros Hw.
  - split; [constructor | reflexivity].
  - destruct (surrogate_cases a) as [[E Ha] | [E Ha]].
    + destruct (wellFormed_pair _ _ E Hw) as (d & s' & [=] & _).
    + destruct (wellFormed_unit _ _ E Hw) as (Hc & El & _).
      rewrite codePoints_unit by assumption.
      destruct (low_surrogate_cases a) as [[E' Hl] | [E' Hl]]; [congruence|].
      split; [repeat constructor; unfold scalar; lia|].
      cbn [codePoints map concat].
      rewrite utf16_of_scalar_unit by exact Hc. reflexivity.
  - destruct (surrogate_cases a) as [[E Ha] | [E Ha]].
    + destruct (wellFormed_pair _ _ E Hw) as (d & s' & [= <- <-] & Ed & Hs').
      rewrite codePoints_pair by assumption.
      destruct (low_surrogate_cases b) as [[E' Hb] | [E' Hb]]; [|congruence].
      destruct (IHl Hs') as [Hs Hc].
      split; [constructor; [unfold scalar; lia | exact Hs]|].
      cbn [map concat]. rewrite utf16_of_pair by assumption.
      cbn [app]. now rewrite Hc.
    + destruct (wellFormed_unit _ _ E Hw) as (Hc & El & Hs').
      rewrite codePoints_unit by assumption.
      destruct (low_surrogate_cases a) as [[E' Hl] | [E' Hl]]; [congruence|].
      destruct (IHbl Hs') as [Hs Hcc].
      split; [constructor; [unfold scalar; lia | exact Hs]|].
      cbn [map concat]. rewrite utf16_of_scalar_unit by exact Hc.
      cbn [app]. now rewrite Hcc.
Qed.

Lemma stripBOM_codePoint cp rest :
  scalar cp -> cp <> 65279%N ->
  stripBOM (map N_of_ascii (utf8_of_codePoint cp) ++ rest) =
  map N_of_ascii (utf8_of_codePoint cp) ++ rest.
Proof.
  intros [Hmax Hsur] Hbom. unfold utf8_of_codePoint.
  destruct (N.ltb_spec cp 128); [|destruct (N.ltb_spec cp 2048);
    [|destruct (N.ltb_spec cp 65536)]];
    cbn [map app]; rewrite !N_ascii_embedding by lia.
  - destruct rest as [|b1 [|b2 r]]; try reflexivity.
    unfold stripBOM. ncase. reflexivity.
  - destruct rest as [|b2 r]; try reflexivity.
    unfold stripBOM. ncase. reflexivity.
  - unfold stripBOM.
    destruct (N.eqb_spec (224 + cp / 4096) 239); [|reflexivity].
    destruct (N.eqb_spec (128 + (cp / 64) mod 64) 187); [|reflexivity].
    destruct (N.eqb_spec (128 + cp mod 64) 191); [|reflexivity].
    exfalso. lia.
  - unfold stripBOM. ncase. reflexivity.
Qed.

Lemma stripBOM_encode s :
  wellFormed s = true -> startsWithBOM s = false ->
  stripBOM (map N_of_ascii (TextEncoder_encode s)) =
  map N_of_ascii (TextEncoder_encode s).
Proof.
  intros Hw Hb. destruct (codePoints_wellFormed s Hw) as [Hs _].
  unfold TextEncoder_encode.
  destruct s as [|c s]; [reflexivity|].
  cbn [startsWithBOM] in Hb. apply N.eqb_neq in Hb.
  destruct (surrogate_cases c) as [[E Hc] | [E Hc]].
  - destruct (wellFormed_pair _ _ E Hw) as (d & s' & -> & Ed & _).
    rewrite codePoints_pair in Hs |- * by assumption.
    apply Forall_cons in Hs as [Hcp _].
    cbn [map concat]. rewrite map_app.
    apply stripBOM_codePoint; [exact Hcp | lia].
  - destruct (wellFormed_unit _ _ E Hw) as (_ & El & _).
    rewrite codePoints_unit in Hs |- * by assumption.
    apply Forall_cons in Hs as [Hcp _].
    cbn [map concat]. rewrite map_app.
    apply stripBOM_codePoint; assumption.
Qed.

(** A well-formed string that does not begin with U+FEFF survives
    [TextEncoder] followed by [TextDecoder]. *)
Lemma text_round_trip s :
  wellFormed s = true -> startsWithBOM s = false ->
  TextDecoder_decode (TextEncoder_encode s) = s.
Proof.
  intros Hw Hb. unfold TextDecoder_decode.
  rewrite stripBOM_encode by assumption.
  destruct (codePoints_wellFormed s Hw) as [Hs Hc].
  unfold TextEncoder_encode. now rewrite utf8_run_codePoints.
Qed.

Lemma lone_surrogate_is_replaced :
  wellFormed [55296%N] = false /\
  TextDecoder_decode (TextEncoder_encode [55296%N]) = [65533%N].
Proof. split; reflexivity. Qed.

Lemma leading_mark_is_dropped :
  startsWithBOM (65279%N :: js "a") = true /\
  TextDecoder_decode (TextEncoder_encode (65279%N :: js "a")) = js "a".
Proof. split; reflexivity. Qed.

(** ** The envelope of [src/crypto.ts] *)

Lemma split_on_no_sep sep (a : list N) :
  Forall (fun c => c <> sep) a -> split_on sep a = [a].
Proof.
  induction 1 as [|c a Hc _ IH]; [reflexivity|].
  cbn. apply N.eqb_neq in Hc. rewrite Hc, IH. reflexivity.
Qed.

Lemma split_on_app sep (a r : list N) :
  Forall (fun c => c <> sep) a ->
  split_on sep (a ++ sep :: r) = a :: split_on sep r.
Proof.
  induction 1 as [|c a Hc _ IH]; cbn.
  - now rewrite N.eqb_refl.
  - apply N.eqb_neq in Hc. rewrite Hc, IH. reflexivity.
Qed.

Lemma plain_no_colon (s : list N) :
  Forall plain s -> Forall (fun c => c <> 58%N) s.
Proof.
  intros H. eapply Forall_impl; [exact H|]. intros c [_ Hc]. exact Hc.
Qed.

Lemma plain_ascii (s : list N) :
  Forall plain s -> Forall (fun c => c < 128)%N s.
Proof.
  intros H. eapply Forall_impl; [exact H|]. intros c [Hc _]. exact Hc.
Qed.

(** The first two fields of [ivB:ctB] and of [ivB:ctB:junk]. *)
Lemma envelopeFields_pair (ivB ctB : list N) :
  Forall plain ivB -> Forall plain ctB ->
  envelopeFields (ivB ++ js ":" ++ ctB) = (ivB, ctB).
Proof.
  intros Hi Hc. unfold envelopeFields. change (js ":" ++ ctB) with (58%N :: ctB).
  rewrite split_on_app by apply plain_no_colon, Hi.
  rewrite split_on_no_sep by apply plain_no_colon, Hc. reflexivity.
Qed.

Lemma envelopeFields_extra (ivB ctB junk : list N) :
  Forall plain ivB -> Forall plain ctB ->
  envelopeFields ((ivB ++ js ":" ++ ctB) ++ js ":" ++ junk) = (ivB, ctB).
Proof.
  intros Hi Hc. unfold envelopeFields. rewrite <- !app_assoc.
  change (js ":" ++ ctB ++ js ":" ++ junk) with (58%N :: ctB ++ 58%N :: junk).
  rewrite split_on_app by apply plain_no_colon, Hi.
  rewrite split_on_app by apply plain_no_colon, Hc.
  destruct (split_on 58 junk) eqn:E; reflexivity.
Qed.

Section Codecs.
Context {R : Runtime} (L : RuntimeLaws R).

Lemma arrayBufferToBase64_eq (buffer : list ascii) :
  arrayBufferToBase64 buffer = Some (b64encode buffer).
Proof. apply btoa_fromCharCodes. Qed.

Lemma base64ToArrayBuffer_b64encode (buffer : list ascii) :
  base64ToArrayBuffer (b64encode buffer) = Some buffer.
Proof.
  unfold base64ToArrayBuffer. rewrite atob_b64encode. cbn.
  now rewrite bytes_of_fromCharCodes.
Qed.

Lemma encrypt_eq data key iv :
  encrypt data key iv =
  Some (b64encode iv ++ js ":"
        ++ b64encode (aesGcmEncrypt key iv (TextEncoder_encode data))).
Proof. unfold encrypt. now rewrite !arrayBufferToBase64_eq. Qed.

Lemma decrypt_fields envelope key (ivB ctB : list N) iv ct :
  envelopeFields envelope = (ivB, ctB) ->
  base64ToArrayBuffer ivB = Some iv ->
  base64ToArrayBuffer ctB = Some ct ->
  decrypt envelope key = option_map TextDecoder_decode (aesGcmDecrypt key iv ct).
Proof. unfold decrypt. intros -> -> ->. reflexivity. Qed.

(** A plaintext comes out of [decrypt] only through an accepting AES-GCM
    decryption of the two base64 fields. *)
Lemma decrypt_Some_inv envelope key plaintext :
  decrypt envelope key = Some plaintext ->
  exists iv ct pt,
    base64ToArrayBuffer (fst (envelopeFields envelope)) = Some iv /\
    base64ToArrayBuffer (snd (envelopeFields envelope)) = Some ct /\
    aesGcmDecrypt key iv ct = Some pt /\
    plaintext = TextDecoder_decode pt.
Proof.
  unfold decrypt. destruct (envelopeFields envelope) as [ivB ctB]. cbn [fst snd].
  destruct (base64ToArrayBuffer ivB) as [iv|]; [|discriminate].
  destruct (base64ToArrayBuffer ctB) as [ct|]; [|discriminate].
  destruct (aesGcmDecrypt key iv ct) as [pt|] eqn:E; [|discriminate].
  intros [= <-]. exists iv, ct, pt. repeat split. exact E.
Qed.

Lemma decrypt_encrypt data key iv envelope :
  TextDecoder_decode (TextEncoder_encode data) = data ->
  encrypt data key iv = Some envelope ->
  decrypt envelope key = Some data.
Proof.
  intros Hd. rewrite encrypt_eq. intros [= <-].
  rewrite (decrypt_fields _ _ (b64encode iv)
             (b64encode (aesGcmEncrypt key iv (TextEncoder_encode data))) iv
             (aesGcmEncrypt key iv (TextEncoder_encode data))).
  - rewrite (aesGcm_decrypt_encrypt R L). cbn. now rewrite Hd.
  - apply envelopeFields_pair; apply b64encode_plain_or_pad.
  - apply base64ToArrayBuffer_b64encode.
  - apply base64ToArrayBuffer_b64encode.
Qed.

Lemma decrypt_encrypt_extra data key iv envelope junk :
  TextDecoder_decode (TextEncoder_encode data) = data ->
  encrypt data key iv = Some envelope ->
  decrypt (envelope ++ js ":" ++ junk) key = Some data.
Proof.
  intros Hd. rewrite encrypt_eq. intros [= <-].
  rewrite (decrypt_fields _ _ (b64encode iv)
             (b64encode (aesGcmEncrypt key iv (TextEncoder_encode data))) iv
             (aesGcmEncrypt key iv (TextEncoder_encode data))).
  - rewrite (aesGcm_decrypt_encrypt R L). cbn. now rewrite Hd.
  - apply envelopeFields_extra; apply b64encode_plain_or_pad.
  - apply base64ToArrayBuffer_b64encode.
  - apply base64ToArrayBuffer_b64encode.
Qed.


(** *** The two compression stages *)

Lemma gzipCompress_eq data :
  gzipCompress data = Some (b64encode (gzip data)).
Proof. apply btoa_fromCharCodes. Qed.

Lemma gzipExpand_gzipCompress v stored :
  gzipCompress (JSON_stringify v) = Some stored ->
  gzipExpand stored = Some (JSON_stringify v).
Proof.
  rewrite gzipCompress_eq. intros [= <-].
  unfold gzipExpand. rewrite atob_b64encode, bytes_of_fromCharCodes.
  apply (ungzip_gzip R L).
Qed.


End Codecs.

(** ** Decode failures on read *)

Section Decode_failure.
Context {R : Runtime}.

Lemma cacheResponse_trace cacheKey body response ttl now k iv w w' :
  w_trace w = w_trace w' ->
  w_trace (snd (cacheResponse cacheKey body response ttl now k iv w)) =
  w_trace (snd (cacheResponse cacheKey body response ttl now k iv w')).
Proof.
  intros Ht. unfold cacheResponse, mbind, M_bind, orThrow.
  destruct (Date_toISOString _); [|exact Ht]. cbn.
  destruct (JSON_parse _); [|exact Ht]. cbn.
  destruct (compressBody _); [|exact Ht]. cbn.
  destruct (encrypt _ _ _); [|exact Ht]. cbn.
  now rewrite Ht.
Qed.

Lemma getCachedResponse_absent cacheKey now k w :
  w_store w !! cacheKey = None ->
  fst (getCachedResponse cacheKey now k w) = Some None.
Proof.
  intros H. unfold getCachedResponse, mbind, M_bind, db_first. cbn.
  rewrite H. reflexivity.
Qed.

Lemma getCachedResponse_undecodable cacheKey now k w row :
  w_store w !! cacheKey = Some row ->
  parseD1Row cacheKey row k = None ->
  fst (getCachedResponse cacheKey now k w) = Some None.
Proof.
  intros H Hp. unfold getCachedResponse, mbind, M_bind, db_first. cbn.
  rewrite H. destruct (sqlite_text_gt _ _); [|reflexivity].
  rewrite Hp. reflexivity.
Qed.

Lemma parseD1Row_None cacheKey row k :
  decrypt (TextDecoder_decode (row_body row)) k = None
  \/ (exists d, decrypt (TextDecoder_decode (row_body row)) k = Some d /\
                decompressBody d = None) ->
  parseD1Row cacheKey row k = None.
Proof.
  unfold parseD1Row. intros [-> | (d & -> & ->)]; reflexivity.
Qed.

(** C8: a stored row whose body does not decode (the envelope is rejected
    by [decrypt], or the decrypted text is rejected by base64, GUNZIP,
    [JSON.parse] or the structural decompressor) makes the lookup return
    [null] without throwing, exactly as when no row is stored; the handler
    then answers as it would without the row, with the same effects, and
    calls the upstream once. *)
Theorem C8_decode_failure_is_a_miss request env upstream now iv w k row :
  w_store w !! generateCacheKey (req_url request) = Some row ->
  decrypt (TextDecoder_decode (row_body row)) k = None
  \/ (exists d, decrypt (TextDecoder_decode (row_body row)) k = Some d /\
                decompressBody d = None) ->
  let cacheKey := generateCacheKey (req_url request) in
  let w' := mkWorld (delete cacheKey (w_store w)) (w_trace w) in
  fst (getCachedResponse cacheKey now k w) = Some None /\
  fst (getCachedResponse cacheKey now k w') = Some None /\
  (isValidServiceKey
     (Headers_get (req_headers request) (js "x-cache-service-key"))
     (SERVICE_AUTH_KEY env) = true ->
   getEncryptionKey (D1_CACHESTORE_ENCRYPTION_KEY env) = Some k ->
   canCacheEndpoint (req_url request) = true ->
   let r := fetch request env upstream now iv w in
   let r' := fetch request env upstream now iv w' in
   fst r = fst r' /\
   w_trace (snd r) = w_trace (snd r') /\
   (forall u,
      upstreamURL (req_url request) (SUPABASE_URL env) = Some u ->
      upstreamFetches (w_trace (snd r)) =
      upstreamFetches (w_trace w) ++ [UpstreamFetch (upstreamRequest request u)])).
Proof.
  intros Hrow Hfail cacheKey w'.
  pose proof (parseD1Row_None cacheKey row k Hfail) as Hp.
  assert (H1 : fst (getCachedResponse cacheKey now k w) = Some None)
    by exact (getCachedResponse_undecodable _ _ _ _ _ Hrow Hp).
  assert (H2 : fst (getCachedResponse cacheKey now k w') = Some None).
  { apply getCachedResponse_absent. cbn. apply lookup_delete_eq. }
  split; [exact H1|]. split; [exact H2|].
  intros Hk He Hc r r'. subst r r'.
  rewrite (fetch_cacheable request env upstream now iv w k Hk He Hc).
  rewrite (fetch_cacheable request env upstream now iv w' k Hk He Hc).
  fold cacheKey. rewrite H1, H2. cbn [w_store w_trace w'].
  destruct (upstreamURL _ _) as [u|]; cbn [fst snd w_trace].
  2:{ repeat split. intros u [=]. }
  destruct (upstream _) as [response|]; cbn [fst snd w_trace].
  2:{ repeat split. intros u' [= <-].
      unfold upstreamFetches. rewrite !List.filter_app. reflexivity. }
  assert (Hu : forall t : list event,
            upstreamFetches t =
            upstreamFetches (w_trace w)
            ++ [UpstreamFetch (upstreamRequest request u)] ->
            forall u', Some u = Some u' ->
            upstreamFetches t =
            upstreamFetches (w_trace w)
            ++ [UpstreamFetch (upstreamRequest request u')]).
  { intros t Ht u' [= <-]. exact Ht. }
  assert (H0 : upstreamFetches
                 (w_trace w ++ [StoreRead cacheKey]
                  ++ [UpstreamFetch (upstreamRequest request u)]) =
               upstreamFetches (w_trace w)
               ++ [UpstreamFetch (upstreamRequest request u)]).
  { unfold upstreamFetches. rewrite !List.filter_app. reflexivity. }
  destruct (shouldCacheResponse request response); cbn [fst snd w_trace].
  2:{ repeat split. apply Hu, H0. }
  split; [reflexivity|]. split; [apply cacheResponse_trace; reflexivity|].
  apply Hu.
  match goal with
  | |- context [cacheResponse ?a ?b ?c ?d ?e ?f ?g ?h] =>
      destruct (cacheResponse_cases a b c d e f g h) as [E | [row' E]];
      rewrite E; cbn [snd w_trace]
  end.
  - exact H0.
  - rewrite app_assoc. unfold upstreamFetches in *.
    rewrite List.filter_app, <- app_assoc, H0. cbn. apply app_nil_r.
Qed.

End Decode_failure.

(** ** Write, then read *)

Section Write_then_read.
Context {R : Runtime} (L : RuntimeLaws R).

Lemma envelope_ascii (iv ct : list ascii) :
  Forall (fun c => c < 128)%N (b64encode iv ++ js ":" ++ b64encode ct).
Proof.
  apply Forall_app. split; [apply plain_ascii, b64encode_plain_or_pad|].
  apply Forall_app. split; [|apply plain_ascii, b64encode_plain_or_pad].
  repeat constructor.
Qed.

(** A successful [cacheResponse] stores a row that [parseD1Row] decodes to
    the parsed body, re-serialised. *)
Lemma cacheResponse_stores cacheKey body response ttl now k iv w v expires :
  Date_toISOString (now + ttl * 1000) = Some expires ->
  JSON_parse body = Some v ->
  exists row,
    cacheResponse cacheKey body response ttl now k iv w =
    (Some tt, mkWorld (<[cacheKey := row]> (w_store w))
                (w_trace w ++ [StoreWrite cacheKey row])) /\
    row_expires row = expires /\
    row_status row = res_status response /\
    row_headers row = headersToJSON (res_headers response) /\
    parseD1Row cacheKey row k =
    Some (mkSchema cacheKey (TextEncoder_encode (JSON_stringify v))
            (res_status response) (headersToJSON (res_headers response))
            expires).
Proof.
  intros Hd Hv. unfold cacheResponse, mbind, M_bind, orThrow.
  rewrite Hd, Hv. cbn.
  unfold compressBody. rewrite gzipCompress_eq. cbn.
  rewrite encrypt_eq. cbn.
  eexists. split; [reflexivity|]. cbn [row_expires row_status row_headers].
  repeat (split; [reflexivity|]).
  unfold parseD1Row. cbn [row_body row_status row_headers row_expires].
  rewrite text_round_trip_ascii by apply envelope_ascii.
  rewrite (decrypt_encrypt L (b64encode (gzip (JSON_stringify (compress v))))
             k iv).
  - unfold decompressBody.
    rewrite (gzipExpand_gzipCompress L (compress v)) by apply gzipCompress_eq.
    rewrite (JSON_parse_stringify R L), (decompress_compress R L).
    reflexivity.
  - apply text_round_trip_ascii, plain_ascii, b64encode_plain_or_pad.
  - apply encrypt_eq.
Qed.

Lemma newResponse_2xx body status headers :
  (200 <= status <= 299)%Z -> isNullBodyStatus status = false ->
  newResponse body status headers = Some (mkResponse status headers body).
Proof.
  intros [Hlo Hhi] Hn. unfold newResponse. rewrite Hn.
  apply Z.leb_le in Hlo. rewrite Hlo.
  assert ((status <=? 599)%Z = true) as -> by (apply Z.leb_le; lia).
  reflexivity.
Qed.


End Write_then_read.

(** ** Expiry *)

Lemma padDigits_ascii w n : Forall (fun c => c < 128)%N (padDigits w n).
Proof.
  revert n. induction w as [|w IH]; intros n; cbn [padDigits].
  - constructor.
  - apply Forall_app. split; [apply IH|].
    constructor; [|constructor].
    pose proof (Z.mod_pos_bound n 10 eq_refl). lia.
Qed.

Lemma dateText_ascii ms : Forall (fun c => c < 128)%N (dateText ms).
Proof.
  assert (Hdash : Forall (fun c => c < 128)%N (js "-")) by (repeat constructor).
  unfold dateText. destruct (civil_from_days _) as [[y m] d].
  apply Forall_app. split.
  - unfold isoYear.
    destruct (_ && _); [apply padDigits_ascii|].
    destruct (y <? 0)%Z; (apply Forall_app; split;
      [repeat constructor | apply padDigits_ascii]).
  - apply Forall_app. split; [exact Hdash|].
    apply Forall_app. split; [apply padDigits_ascii|].
    apply Forall_app. split; [exact Hdash | apply padDigits_ascii].
Qed.

Lemma memcmp_gt_after_prefix (p x y : list N) (a b : N) :
  (b < a)%N -> memcmp_gt (p ++ a :: x) (p ++ b :: y) = true.
Proof.
  intros Hab. induction p as [|c p IH]; cbn.
  - assert ((a =? b)%N = false) as -> by (apply N.eqb_neq; lia).
    apply N.ltb_lt, Hab.
  - now rewrite N.eqb_refl.
Qed.

(** The stored expiry is ISO text with a [T] after the date, and
    [CURRENT_TIMESTAMP] has a space there: on the calendar day of the expiry
    the lookup predicate holds at every time of day. *)
Lemma encode_prefix_unit (d r : list N) (c : N) :
  Forall (fun c => c < 128)%N d -> (c < 128)%N ->
  map N_of_ascii (TextEncoder_encode (d ++ [c] ++ r)) =
  map N_of_ascii (map ascii_of_N d)
  ++ c :: map N_of_ascii (TextEncoder_encode r).
Proof.
  intros Hd Hc.
  rewrite (TextEncoder_encode_ascii_app d) by exact Hd.
  rewrite (TextEncoder_encode_ascii_app [c]) by (constructor; [exact Hc | constructor]).
  rewrite map_app. cbn [map app].
  rewrite N_ascii_embedding by lia. reflexivity.
Qed.

Lemma lookup_predicate_within_day expiry now s :
  dateText expiry = dateText now ->
  Date_toISOString expiry = Some s ->
  sqlite_text_gt s (CURRENT_TIMESTAMP now) = true.
Proof.
  intros Hday. unfold Date_toISOString.
  destruct (_ && _); [|discriminate].
  intros H. apply (inj Some) in H. subst s.
  unfold sqlite_text_gt, CURRENT_TIMESTAMP. rewrite Hday.
  generalize (clockText expiry ++ js "." ++ padDigits 3 (expiry mod 1000)
              ++ js "Z").
  generalize (clockText now). generalize (dateText_ascii now).
  generalize (dateText now). intros d Hd tail2 tail1.
  change (js "T") with [84%N]. change (js " ") with [32%N].
  rewrite !encode_prefix_unit by (exact Hd || reflexivity).
  apply memcmp_gt_after_prefix. reflexivity.
Qed.

(** C1: an entry written at 10:00:00 with a TTL of 30 seconds expires at
    10:00:30; the lookup finds it at 10:00:29, and also at 10:00:31 and
    at 23:59:59 of that day, and misses it only from 00:00:00 of the next
    day on; a request at 10:00:31 is answered from the store. *)
Theorem C1_entry_outlives_its_ttl :
  let key := generateCacheKey countriesURL in
  parseTTL (req_headers getRequest) = 30%Z /\
  row_expires <$> w_store worldAfterGet !! key
    = Some (js "2024-12-30T10:00:30.000Z") /\
  CURRENT_TIMESTAMP (refTime + 31000) = js "2024-12-30 10:00:31" /\
  is_Some (default None (fst (db_first key (refTime + 29000) worldAfterGet)))
  /\
  is_Some (default None (fst (db_first key (refTime + 31000) worldAfterGet)))
  /\
  is_Some (default None (fst (db_first key (refTime + 50399000) worldAfterGet)))
  /\
  fst (db_first key (refTime + 50400000) worldAfterGet) = Some None /\
  fst (getCachedResponse (R := refRuntime) key (refTime + 31000) refKey
         worldAfterGet) = Some (refUpstream getRequest) /\
  fetch (R := refRuntime) getRequest refEnv (fun _ => None) (refTime + 31000)
    refNonce worldAfterGet =
  (refUpstream getRequest,
   mkWorld (w_store worldAfterGet) (w_trace worldAfterGet ++ [StoreRead key])).
Proof.
  repeat split; try (vm_compute; reflexivity); vm_compute; eexists; reflexivity.
Qed.

(** ** The reference runtime meets the laws *)

Lemma stripPrefix_app (p m : list ascii) : stripPrefix p (p ++ m) = Some m.
Proof.
  induction p as [|a p IH]; cbn; [reflexivity|].
  rewrite bool_decide_eq_true_2 by reflexivity. exact IH.
Qed.

Lemma refRuntime_laws : RuntimeLaws refRuntime.
Proof.
  constructor; cbn.
  - intros v. change (map N_of_ascii v) with (fromCharCodes v).
    now rewrite fromCharCodes_latin1, bytes_of_fromCharCodes.
  - intros v. now rewrite rev_involutive.
  - intros v. change (map N_of_ascii v) with (fromCharCodes v).
    now rewrite bytes_of_fromCharCodes.
  - intros k iv m. rewrite app_assoc. apply stripPrefix_app.
Qed.

(** ** The results at concrete requests *)




Lemma C5_eligibility_gating_witness :
  let r := fetch (R := refRuntime) postRequest refEnv refUpstream refTime
             refNonce emptyWorld in
  w_store (snd r) = ∅ /\ storeWrites (w_trace (snd r)) = [].
Proof.
  apply (C5_eligibility_gating (R := refRuntime) postRequest refEnv
           refUpstream refTime refNonce emptyWorld).
  intros out response _. left. reflexivity.
Defined.

Lemma C6_bypass_precedence_witness :
  let r := fetch (R := refRuntime) realtimeRequest refEnv refUpstream refTime
             refNonce emptyWorld in
  canCacheEndpoint (req_url realtimeRequest) = false /\
  storeAccesses (w_trace (snd r)) = [] /\
  fst r = refUpstream realtimeRequest.
Proof.
  destruct (C6_bypass_precedence (R := refRuntime) realtimeRequest refEnv
              refUpstream refTime refNonce emptyWorld eq_refl)
    as (_ & Hacc & Hproxy).
  split; [reflexivity|]. split; [exact Hacc|].
  rewrite (Hproxy refKey _ eq_refl eq_refl eq_refl). reflexivity.
Defined.

(** C6, as stated, fails: a request to a bypass URL that carries no service
    key is answered 401 and the upstream is never called. *)
Lemma C6_unauthenticated_bypass_is_not_proxied :
  let r := fetch (R := refRuntime) anonymousRealtimeRequest refEnv refUpstream
             refTime refNonce emptyWorld in
  canCacheEndpoint (req_url anonymousRealtimeRequest) = false /\
  upstreamFetches (w_trace (snd r)) = [] /\
  (res_status <$> fst r) = Some 401%Z /\
  fst r <> refUpstream anonymousRealtimeRequest.
Proof.
  repeat split; try (vm_compute; reflexivity). vm_compute. discriminate.
Qed.

Lemma C7_unauthorized_witness :
  Headers_get (req_headers anonymousRealtimeRequest)
    (js "x-cache-service-key") = None /\
  let r := fetch (R := refRuntime) anonymousRealtimeRequest refEnv refUpstream
             refTime refNonce worldAfterGet in
  (exists response, fst r = Some response /\ res_status response = 401%Z) /\
  snd r = worldAfterGet.
Proof.
  split; [reflexivity|].
  destruct (C7_unauthorized (R := refRuntime) anonymousRealtimeRequest refEnv
              refUpstream refTime refNonce worldAfterGet
              (or_introl eq_refl))
    as (Hr & Hw & _).
  split; assumption.
Defined.

Lemma C8_decode_failure_is_a_miss_witness :
  exists row,
    w_store worldSealedElsewhere !! generateCacheKey (req_url headRequest)
    = Some row /\
    decrypt (R := refRuntime) (TextDecoder_decode (row_body row)) refKey
    = None /\
    fst (getCachedResponse (R := refRuntime)
           (generateCacheKey (req_url headRequest)) refTime refKey
           worldSealedElsewhere) = Some None /\
    upstreamFetches
      (w_trace (snd (fetch (R := refRuntime) headRequest refEnv refUpstream
                       refTime refNonce worldSealedElsewhere))) =
    upstreamFetches (w_trace worldSealedElsewhere)
    ++ [UpstreamFetch
          (upstreamRequest headRequest
             (js "https://project.supabase.co" ++ countriesURL))].
Proof.
  destruct (w_store worldSealedElsewhere
            !! generateCacheKey (req_url headRequest)) as [row|] eqn:Hrow;
    [|vm_compute in Hrow; discriminate Hrow].
  assert (Hfail : decrypt (R := refRuntime)
                    (TextDecoder_decode (row_body row)) refKey = None).
  { vm_compute in Hrow. injection Hrow as <-. vm_compute. reflexivity. }
  exists row. split; [reflexivity|]. split; [exact Hfail|].
  destruct (C8_decode_failure_is_a_miss (R := refRuntime) headRequest
              refEnv refUpstream refTime refNonce worldSealedElsewhere
              refKey row Hrow (or_introl Hfail))
    as (Hlookup & _ & Hhandler).
  split; [exact Hlookup|].
  destruct (Hhandler eq_refl eq_refl eq_refl) as (_ & _ & Hup).
  exact (Hup _ eq_refl).
Defined.

Lemma C9_bypass_matches_whole_url_witness :
  let r := fetch (R := refRuntime) queryOnlyRequest refEnv refUpstream refTime
             refNonce emptyWorld in
  canCacheEndpoint (req_url queryOnlyRequest) = false /\
  storeAccesses (w_trace (snd r)) = [] /\
  fst r = refUpstream queryOnlyRequest.
Proof.
  destruct (C9_bypass_matches_whole_url (R := refRuntime) queryOnlyRequest
              refEnv refUpstream refTime refNonce emptyWorld
              (js "https://cache.example.workers.dev/rest/v1/items?select=*&next=")
              (js "/subscriptions/") []
              (or_intror (or_introl eq_refl)) eq_refl)
    as (Hc & _ & Hacc & Hproxy).
  split; [exact Hc|]. split; [exact Hacc|].
  rewrite (Hproxy refKey _ eq_refl eq_refl eq_refl). reflexivity.
Defined.

(** C9, as stated, fails: a request whose query string holds a bypass
    substring but whose service key is wrong is answered 401 and never
    reaches the upstream. *)
Lemma C9_wrong_key_is_not_proxied :
  let r := fetch (R := refRuntime) wrongKeyQueryOnlyRequest refEnv refUpstream
             refTime refNonce emptyWorld in
  includes (req_url wrongKeyQueryOnlyRequest) (js "/subscriptions/") = true /\
  upstreamFetches (w_trace (snd r)) = [] /\
  (res_status <$> fst r) = Some 401%Z /\
  fst r <> refUpstream wrongKeyQueryOnlyRequest.
Proof.
  repeat split; try (vm_compute; reflexivity). vm_compute. discriminate.
Qed.


(** * Further properties *)

(** ** TTL from the headers *)

Lemma digits_acc (d : Decimal.uint) (acc : positive) :
  fold_left (fun a c => 10 * a + (Z.of_N c - 48))%Z (uintUnits d) (Zpos acc) =
  Zpos (Pos.of_uint_acc d acc).
Proof.
  revert acc. induction d; intros acc; cbn [uintUnits fold_left Pos.of_uint_acc];
    try reflexivity; rewrite <- IHd; f_equal; lia.
Qed.

Lemma digitsValue_uintUnits (d : Decimal.uint) :
  digitsValue (uintUnits d) = Z.of_N (Pos.of_uint d).
Proof.
  unfold digitsValue.
  induction d; cbn [uintUnits fold_left Pos.of_uint]; try reflexivity;
    try (change (10 * 0 + (Z.of_N _ - 48))%Z with 0%Z; exact IHd);
    cbn [Z.of_N]; rewrite <- digits_acc; reflexivity.
Qed.

Lemma span_digits (d : Decimal.uint) :
  span isDigit (uintUnits d) = (uintUnits d, []).
Proof.
  induction d; cbn [uintUnits span]; try reflexivity;
    (match goal with |- context [isDigit ?c] =>
       change (isDigit c) with true end);
    cbn iota; rewrite IHd; reflexivity.
Qed.

Lemma parseInt_uintUnits (p : positive) :
  parseInt (uintUnits (Pos.to_uint p)) = Num (Zpos p).
Proof.
  pose proof (Unsigned.to_uint_nonnil p) as Hnil.
  pose proof (digitsValue_uintUnits (Pos.to_uint p)) as Hv.
  pose proof (span_digits (Pos.to_uint p)) as Hs.
  rewrite Unsigned.of_to in Hv.
  destruct (Pos.to_uint p) as [|d|d|d|d|d|d|d|d|d|d]; [congruence|..];
    unfold parseInt;
    cbn [uintUnits span isStrWhiteSpace existsb N.eqb Pos.eqb orb andb
         N.leb N.compare Pos.compare Pos.compare_cont snd fst] in *;
    rewrite Hs; cbn [fst]; rewrite Hv; reflexivity.
Qed.

Lemma parseInt_negative_uintUnits (p : positive) :
  parseInt (45%N :: uintUnits (Pos.to_uint p)) = Num (Zneg p).
Proof.
  pose proof (Unsigned.to_uint_nonnil p) as Hnil.
  pose proof (digitsValue_uintUnits (Pos.to_uint p)) as Hv.
  pose proof (span_digits (Pos.to_uint p)) as Hs.
  rewrite Unsigned.of_to in Hv.
  unfold parseInt.
  change (span isStrWhiteSpace (45%N :: ?l)) with (@nil N, 45%N :: l).
  cbn [snd]. rewrite Hs. cbn [fst].
  destruct (uintUnits (Pos.to_uint p)) as [|c l] eqn:E.
  - destruct (Pos.to_uint p); cbn in E; congruence.
  - rewrite Hv. reflexivity.
Qed.

(** [parseInt(n.toString(), 10)] is [n]. *)
Lemma parseInt_toString (n : number) : parseInt (Number_toString n) = n.
Proof.
  destruct n as [|[|p|p]]; cbn [Number_toString].
  - reflexivity.
  - reflexivity.
  - apply parseInt_uintUnits.
  - apply parseInt_negative_uintUnits.
Qed.

(** How [parseTTL] reads the headers, with the two conversions through text
    removed. *)
Lemma parseTTL_eq (headers : list (list N * list N)) :
  parseTTL headers =
  match
    (if truthy (Headers_get headers (js "x-ttl"))
     then parseInt (default [] (Headers_get headers (js "x-ttl")))
     else Num defaultTTL)
  with
  | Num ttl => if (0 <? ttl)%Z then ttl else defaultTTL
  | NaN => defaultTTL
  end.
Proof.
  destruct (truthy (Headers_get headers (js "x-ttl"))) eqn:Hx.
  - unfold parseTTL. rewrite Hx, parseInt_toString. reflexivity.
  - rewrite parseTTL_without_x_ttl by exact Hx. reflexivity.
Qed.

(** X1: an [X-TTL] header whose value reads as a positive integer [n] (a
    safe integer, for which the number model is exact) sets the TTL to [n],
    whatever [Cache-Control] says. *)
Theorem parseTTL_x_ttl_governs (headers : list (list N * list N))
    (v : list N) (n : Z) :
  Headers_get headers (js "x-ttl") = Some v ->
  parseInt v = Num n ->
  (0 < n <= 9007199254740991)%Z ->
  parseTTL headers = n.
Proof.
  intros Hv Hp [Hn _]. rewrite parseTTL_eq, Hv.
  assert (truthy (Some v) = true) as ->.
  { destruct v; [discriminate Hp | reflexivity]. }
  change (default [] (Some v)) with v.
  rewrite Hp. apply Z.ltb_lt in Hn. now rewrite Hn.
Qed.

(** X2: when [X-TTL] is absent or empty, or does not start with a number, or
    reads as zero or a negative number, the TTL is the default of 900
    seconds, whatever [Cache-Control] says. *)
Theorem parseTTL_falls_back (headers : list (list N * list N)) :
  Headers_get headers (js "x-ttl") = None
  \/ Headers_get headers (js "x-ttl") = Some []
  \/ (exists v, Headers_get headers (js "x-ttl") = Some v /\
                (parseInt v = NaN
                 \/ exists n, parseInt v = Num n /\ (n <= 0)%Z)) ->
  parseTTL headers = 900%Z.
Proof.
  rewrite parseTTL_eq.
  intros [-> | [-> | (v & -> & Hv)]]; try reflexivity.
  destruct v as [|c v]; [reflexivity|].
  cbn [truthy]. change (default [] (Some (c :: v))) with (c :: v).
  destruct Hv as [-> | (n & -> & Hn)]; [reflexivity|].
  apply Z.ltb_ge in Hn. now rewrite Hn.
Qed.

(** X3: the TTL is always positive, and a TTL other than the default of
    900 seconds is only ever produced by a non-empty [X-TTL] header. *)
Theorem parseTTL_positive (headers : list (list N * list N)) :
  (0 < parseTTL headers)%Z /\
  (parseTTL headers <> 900%Z ->
   truthy (Headers_get headers (js "x-ttl")) = true).
Proof.
  rewrite parseTTL_eq.
  assert (Hdef : forall P : Prop, (0 < 900)%Z /\ (900%Z <> 900%Z -> P)).
  { intros P. split; [reflexivity | intros H; destruct (H eq_refl)]. }
  destruct (Headers_get headers (js "x-ttl")) as [v|] eqn:Hv; cbn [truthy].
  2:{ apply Hdef. }
  destruct v as [|c v]; [apply Hdef|].
  change (default [] (Some (c :: v))) with (c :: v).
  destruct (parseInt (c :: v)) as [|ttl] eqn:Hp; [apply Hdef|].
  destruct (0 <? ttl)%Z eqn:Hpos; [|apply Hdef].
  apply Z.ltb_lt in Hpos. split; [exact Hpos | reflexivity].
Qed.

(** ** The policy functions *)

(** X4: a URL is refused for caching exactly when one of the bypass
    substrings occurs somewhere in the URL string (the comparison is
    case-sensitive and not limited to the path). *)
Theorem canCacheEndpoint_false_iff (url : list N) :
  canCacheEndpoint url = false <->
  exists path pre post, In path bypassCacheOnPath /\ url = pre ++ path ++ post.
Proof.
  unfold canCacheEndpoint. rewrite negb_false_iff, existsb_exists. split.
  - intros (path & Hin & Hinc).
    destruct (includes_inv _ _ Hinc) as (pre & post & ->). eauto.
  - intros (path & pre & post & Hin & ->).
    exists path. split; [exact Hin | apply includes_app].
Qed.

(** X5: [shouldCacheResponse] accepts exactly when the method is GET or
    HEAD, the status is in 200..299, [Cache-Control] does not contain
    [no-store], and a URL containing [/rest/] also contains [?select=]. *)
Theorem shouldCacheResponse_iff request response :
  shouldCacheResponse request response = true <->
  (req_method request = js "GET" \/ req_method request = js "HEAD") /\
  (200 <= res_status response <= 299)%Z /\
  (forall v, Headers_get (res_headers response) (js "Cache-Control") = Some v ->
             includes v (js "no-store") = false) /\
  (includes (req_url request) (js "/rest/") = true ->
   includes (req_url request) (js "?select=") = true).
Proof.
  split; [apply shouldCacheResponse_true|].
  intros (Hm & [Hlo Hhi] & Hcc & Hrest).
  unfold shouldCacheResponse, Response_ok.
  apply Z.leb_le in Hlo as Hlo'. apply Z.leb_le in Hhi as Hhi'.
  rewrite Hlo', Hhi'. cbn [andb negb].
  assert ((res_status response <? 200)%Z = false) as -> by (apply Z.ltb_ge; lia).
  assert ((300 <=? res_status response)%Z = false) as -> by (apply Z.leb_gt; lia).
  cbn [orb].
  assert (match Headers_get (res_headers response) (js "Cache-Control") with
          | Some v => includes v (js "no-store")
          | None => false
          end = false) as ->.
  { destruct (Headers_get _ _) as [v|]; [apply Hcc|]; reflexivity. }
  assert (negb (bool_decide (req_method request = js "GET"))
          && negb (bool_decide (req_method request = js "HEAD")) = false) as ->.
  { destruct Hm as [Hm | Hm]; rewrite Hm.
    - reflexivity.
    - rewrite (bool_decide_eq_true_2 (js "HEAD" = js "HEAD")) by reflexivity.
      apply andb_false_r. }
  destruct (includes (req_url request) (js "/rest/")); [|reflexivity].
  now rewrite Hrest.
Qed.

(** ** The cache key *)

Lemma le_bytes_length n x : length (MD5.le_bytes n x) = n.
Proof. unfold MD5.le_bytes. now rewrite length_map, length_seq. Qed.

Lemma digest_length msg : length (MD5.digest msg) = 16%nat.
Proof.
  unfold MD5.digest.
  destruct (MD5.blocks _ _ _) as [[[a b] c] d].
  rewrite length_map, !length_app, !le_bytes_length. reflexivity.
Qed.

Lemma hexDigit_lower n :
  (n < 16)%N ->
  (48 <= hexDigit n <= 57)%N \/ (97 <= hexDigit n <= 102)%N.
Proof.
  intros H. unfold hexDigit. destruct (N.ltb_spec n 10); lia.
Qed.

(** X6: a cache key is always 32 characters long and made of the digits
    and the lower-case letters [a] to [f]. *)
Theorem generateCacheKey_format (url : list N) :
  length (generateCacheKey url) = 32%nat /\
  Forall (fun c => (48 <= c <= 57)%N \/ (97 <= c <= 102)%N)
    (generateCacheKey url).
Proof.
  unfold generateCacheKey.
  pose proof (digest_length (TextEncoder_encode url)) as Hlen.
  generalize dependent (MD5.digest (TextEncoder_encode url)).
  intros bs Hlen. split.
  - assert (H : forall l : list ascii,
              length (concat (map hexByte l)) = (2 * length l)%nat).
    { induction l as [|b l IH]; [reflexivity|].
      cbn [map concat]. rewrite length_app, IH. cbn. lia. }
    rewrite H, Hlen. reflexivity.
  - clear Hlen. induction bs as [|b bs IH]; [constructor|].
    cbn [map concat]. apply Forall_app. split; [|exact IH].
    pose proof (N_ascii_bounded b) as Hb.
    unfold hexByte.
    apply Forall_cons. split; [|apply Forall_cons; split; [|constructor]];
      apply hexDigit_lower.
    + apply N.Div0.div_lt_upper_bound. exact Hb.
    + apply N.mod_lt. discriminate.
Qed.

(** ** Base64 helpers of [src/crypto.ts] *)


Section Adapter.
Context {R : Runtime}.

(** X9: an envelope without a colon is rejected, whatever the key: the
    missing ciphertext field is read as the text [undefined], which is not
    base64. *)
Theorem decrypt_without_delimiter (envelope : list N) (key : CryptoKey) :
  Forall (fun c => c <> 58%N) envelope ->
  decrypt envelope key = None.
Proof.
  intros H. unfold decrypt, envelopeFields.
  rewrite split_on_no_sep by exact H.
  destruct (base64ToArrayBuffer envelope); reflexivity.
Qed.

(** X8: an envelope is ASCII text with exactly two colon-separated fields,
    the base64 of the nonce and the base64 of the ciphertext, and it is
    unchanged by the conversion to a blob and back ([TextEncoder] on write,
    [TextDecoder] on read). *)
Theorem envelope_format data key iv envelope :
  encrypt data key iv = Some envelope ->
  split_on 58%N envelope =
    [b64encode iv;
     b64encode (aesGcmEncrypt key iv (TextEncoder_encode data))] /\
  Forall (fun c => c < 128)%N envelope /\
  TextDecoder_decode (TextEncoder_encode envelope) = envelope.
Proof.
  rewrite encrypt_eq. intros [= <-].
  split; [|split].
  - change (js ":" ++ ?r) with (58%N :: r).
    rewrite split_on_app by apply plain_no_colon, b64encode_plain_or_pad.
    now rewrite split_on_no_sep by apply plain_no_colon, b64encode_plain_or_pad.
  - apply envelope_ascii.
  - apply text_round_trip_ascii, envelope_ascii.
Qed.

(** X12: on the calendar day (UTC) of its expiry a stored row satisfies the
    lookup query at every time of day, before and after the expiry time. *)
Theorem entry_is_fresh_all_day (key : list N) (row : Row) w expiry now :
  w_store w !! key = Some row ->
  Date_toISOString expiry = Some (row_expires row) ->
  dateText now = dateText expiry ->
  fst (db_first key now w) = Some (Some row).
Proof.
  intros Hrow Hexp Hday. unfold db_first. cbn [fst]. rewrite Hrow.
  now rewrite (lookup_predicate_within_day expiry now (row_expires row)).
Qed.

(** X11: a successful write under a key replaces what an earlier write
    stored there (the store ends as if only the second write had happened)
    and leaves every other key as it was. *)
Theorem second_write_replaces_first key body1 response1 ttl1 now1 iv1
    body2 response2 ttl2 now2 iv2 k w :
  let w1 := snd (cacheResponse key body1 response1 ttl1 now1 k iv1 w) in
  fst (cacheResponse key body2 response2 ttl2 now2 k iv2 w1) = Some tt ->
  w_store (snd (cacheResponse key body2 response2 ttl2 now2 k iv2 w1)) =
  w_store (snd (cacheResponse key body2 response2 ttl2 now2 k iv2 w)) /\
  forall k', k' <> key ->
    w_store (snd (cacheResponse key body2 response2 ttl2 now2 k iv2 w1)) !! k'
    = w_store w !! k'.
Proof.
  intros w1. subst w1.
  destruct (cacheResponse_cases key body1 response1 ttl1 now1 k iv1 w)
    as [E1 | [row1 E1]]; rewrite E1; cbn [snd].
  - intros H2.
    destruct (cacheResponse_cases key body2 response2 ttl2 now2 k iv2 w)
      as [E2 | [row2 E2]]; rewrite E2 in *; [discriminate|].
    split; [reflexivity|]. intros k' Hne. cbn. now apply lookup_insert_ne.
  - unfold cacheResponse, mbind, M_bind, orThrow.
    destruct (Date_toISOString _); [|discriminate]. cbn.
    destruct (JSON_parse _); [|discriminate]. cbn.
    destruct (compressBody _); [|discriminate]. cbn.
    destruct (encrypt _ _ _); [|discriminate]. cbn.
    intros _. split; [apply insert_insert_eq|].
    intros k' Hne. now rewrite !lookup_insert_ne by congruence.
Qed.

End Adapter.

Section Adapter_round_trip.
Context {R : Runtime} (L : RuntimeLaws R).


End Adapter_round_trip.

(** ** The handler *)

(** ** Headers sent upstream *)

Lemma Headers_get_delete_eq (h : list (list N * list N)) (n : list N) :
  Headers_get (Headers_delete h n) n = None.
Proof.
  unfold Headers_get, Headers_delete.
  induction h as [|e h IH]; [reflexivity|].
  cbn [List.filter].
  destruct (bool_decide (toLowerCase (fst e) = toLowerCase n)) eqn:E;
    cbn [negb]; [exact IH|].
  cbn [List.filter]. rewrite E. exact IH.
Qed.

Lemma Headers_get_delete_ne (h : list (list N * list N)) (n m : list N) :
  toLowerCase n <> toLowerCase m ->
  Headers_get (Headers_delete h n) m = Headers_get h m.
Proof.
  intros Hne. unfold Headers_get, Headers_delete.
  assert (E : List.filter
                (fun e => bool_decide (toLowerCase (fst e) = toLowerCase m))
                (List.filter
                   (fun e => negb (bool_decide
                                     (toLowerCase (fst e) = toLowerCase n))) h)
              = List.filter
                  (fun e => bool_decide (toLowerCase (fst e) = toLowerCase m))
                  h).
  { induction h as [|e h IH]; [reflexivity|].
    cbn [List.filter].
    destruct (bool_decide (toLowerCase (fst e) = toLowerCase n)) eqn:En;
      cbn [negb].
    - apply bool_decide_eq_true_1 in En.
      rewrite bool_decide_eq_false_2 by congruence. exact IH.
    - cbn [List.filter]. now rewrite IH. }
  now rewrite E.
Qed.

Section Handler_effects.
Context {R : Runtime}.

(** Every run of the handler: the events it adds, the store it leaves and
    what it returns. *)
Lemma fetch_shape request env upstream now iv w :
  let r := fetch request env upstream now iv w in
  let key := generateCacheKey (req_url request) in
  let valid :=
    isValidServiceKey (serviceKeyOf request) (SERVICE_AUTH_KEY env) in
  exists t,
    w_trace (snd r) = w_trace w ++ t /\
    ((t = [] /\ w_store (snd r) = w_store w /\
      (valid = false /\ fst r = Some (textResponse (js "Unauthorized") 401)
       \/ valid = true /\ fst r = None /\
          (getEncryptionKey (D1_CACHESTORE_ENCRYPTION_KEY env) = None
           \/ canCacheEndpoint (req_url request) = false /\
              upstreamURL (req_url request) (SUPABASE_URL env) = None)))
     \/ (exists u,
           upstreamURL (req_url request) (SUPABASE_URL env) = Some u /\
           t = [UpstreamFetch (upstreamRequest request u)] /\
           w_store (snd r) = w_store w /\
           valid = true /\
           canCacheEndpoint (req_url request) = false /\
           fst r = upstream (upstreamRequest request u))
     \/ (t = [StoreRead key] /\ w_store (snd r) = w_store w /\
         valid = true /\
         canCacheEndpoint (req_url request) = true /\
         exists response, fst r = Some response)
     \/ (exists u,
           upstreamURL (req_url request) (SUPABASE_URL env) = Some u /\
           t = [StoreRead key; UpstreamFetch (upstreamRequest request u)] /\
           w_store (snd r) = w_store w /\
           valid = true /\
           canCacheEndpoint (req_url request) = true /\
           fst r =
           Some (default (textResponse (js "Internal Server Error") 500)
                   (upstream (upstreamRequest request u))))
     \/ (exists u row response,
           upstreamURL (req_url request) (SUPABASE_URL env) = Some u /\
           t = [StoreRead key; UpstreamFetch (upstreamRequest request u);
                StoreWrite key row] /\
           w_store (snd r) = <[key := row]> (w_store w) /\
           valid = true /\
           canCacheEndpoint (req_url request) = true /\
           upstream (upstreamRequest request u) = Some response /\
           fst r = Some response)).
Proof.
  intros r key valid. subst r valid.
  destruct (isValidServiceKey (serviceKeyOf request) (SERVICE_AUTH_KEY env))
    eqn:Hk.
  2:{ rewrite fetch_unauthorized by exact Hk. exists []. cbn [fst snd].
      rewrite app_nil_r. auto 10. }
  destruct (getEncryptionKey (D1_CACHESTORE_ENCRYPTION_KEY env)) as [k|] eqn:He.
  2:{ rewrite fetch_key_import_fails by assumption. exists []. cbn [fst snd].
      rewrite app_nil_r. auto 10. }
  destruct (canCacheEndpoint (req_url request)) eqn:Hc.
  2:{ rewrite (fetch_bypass _ _ _ _ _ _ k) by assumption.
      rewrite fetchFromSupabase_eq.
      destruct (upstreamURL _ _) as [u|] eqn:Hu; cbn [fst snd w_store w_trace].
      - eexists. split; [reflexivity|]. right. left. eauto 10.
      - exists []. rewrite app_nil_r. auto 10. }
  rewrite (fetch_cacheable _ _ _ _ _ _ k) by assumption. fold key.
  destruct (fst (getCachedResponse _ _ _ _)) as [[cached|]|];
    cbn [fst snd w_store w_trace];
    try (eexists; split; [reflexivity|]; right; right; left; eauto 10).
  destruct (upstreamURL _ _) as [u|] eqn:Hu; cbn [fst snd w_store w_trace];
    try (eexists; split; [reflexivity|]; right; right; left; eauto 10).
  destruct (upstream _) as [response|] eqn:Hup; cbn [fst snd w_store w_trace].
  2:{ eexists; split; [reflexivity|]; right; right; right; left.
      exists u. rewrite Hup. auto 10. }
  destruct (shouldCacheResponse request response); cbn [fst snd w_store w_trace].
  2:{ eexists; split; [reflexivity|]; right; right; right; left.
      exists u. rewrite Hup. auto 10. }
  match goal with
  | |- context [cacheResponse ?a ?b ?c ?d ?e ?f ?g ?h] =>
      destruct (cacheResponse_cases a b c d e f g h) as [E | [row E]];
      rewrite E; cbn [snd w_store w_trace]
  end.
  - eexists; split; [reflexivity|]; right; right; right; left.
    exists u. rewrite Hup. auto 10.
  - eexists. split; [rewrite <- app_assoc; reflexivity|].
    right; right; right; right. exists u, row, response. auto 10.
Qed.


(** X13: a request causes at most one store read, one upstream call and
    one store write, in that order, all under the key of its URL; a write
    only happens after a read and an upstream call. *)
Theorem fetch_effects_in_order request env upstream now iv w :
  let r := fetch request env upstream now iv w in
  let key := generateCacheKey (req_url request) in
  exists t,
    w_trace (snd r) = w_trace w ++ t /\
    (t = []
     \/ (exists out, t = [UpstreamFetch out])
     \/ t = [StoreRead key]
     \/ (exists out, t = [StoreRead key; UpstreamFetch out])
     \/ (exists out row,
           t = [StoreRead key; UpstreamFetch out; StoreWrite key row])).
Proof.
  intros r key.
  destruct (fetch_shape request env upstream now iv w)
    as (t & Ht & [(-> & _) | [(u & _ & -> & _) | [(-> & _) |
         [(u & _ & -> & _) | (u & row & response & _ & -> & _)]]]]);
    exists t || eexists; (split; [exact Ht|]); eauto 10.
Qed.

(** X14: a request never changes a store entry other than the one under
    the key of its own URL. *)
Theorem fetch_touches_one_entry request env upstream now iv w (k' : list N) :
  k' <> generateCacheKey (req_url request) ->
  w_store (snd (fetch request env upstream now iv w)) !! k' = w_store w !! k'.
Proof.
  intros Hne.
  destruct (fetch_shape request env upstream now iv w)
    as (t & _ & [(_ & -> & _) | [(u & _ & _ & -> & _) | [(_ & -> & _) |
         [(u & _ & _ & -> & _) | (u & row & response & _ & _ & -> & _)]]]]);
    try reflexivity.
  apply lookup_insert_ne. congruence.
Qed.

(** X15: every request sent upstream keeps the method and the body, never
    carries [x-cache-service-key] or [x-ttl] (in any letter case), and
    carries every other header unchanged. *)
Theorem upstream_request_is_stripped request env upstream now iv w t out :
  w_trace (snd (fetch request env upstream now iv w)) = w_trace w ++ t ->
  In (UpstreamFetch out) t ->
  req_method out = req_method request /\
  req_body out = req_body request /\
  Headers_get (req_headers out) (js "x-cache-service-key") = None /\
  Headers_get (req_headers out) (js "x-ttl") = None /\
  (forall name,
     toLowerCase name <> js "x-cache-service-key" ->
     toLowerCase name <> js "x-ttl" ->
     Headers_get (req_headers out) name =
     Headers_get (req_headers request) name).
Proof.
  intros Ht Hin.
  assert (Hout : exists u, out = upstreamRequest request u).
  { destruct (fetch_shape request env upstream now iv w)
      as (t' & Ht' & Hshape).
    rewrite Ht in Ht'. apply app_inv_head in Ht'. subst t'.
    destruct Hshape as [(-> & _) | [(u & _ & -> & _) | [(-> & _) |
         [(u & _ & -> & _) | (u & row & response & _ & -> & _)]]]];
      cbn [In] in Hin; intuition (try discriminate);
      match goal with H : UpstreamFetch _ = UpstreamFetch _ |- _ =>
        injection H as <-; eauto end. }
  destruct Hout as [u ->]. unfold upstreamRequest. cbn [req_method req_body req_headers].
  split; [reflexivity|]. split; [reflexivity|].
  split; [|split].
  - rewrite Headers_get_delete_ne by (vm_compute; discriminate).
    apply Headers_get_delete_eq.
  - apply Headers_get_delete_eq.
  - intros name H1 H2.
    rewrite !Headers_get_delete_ne; [reflexivity | |]; intros E; symmetry in E;
      [apply H1 | apply H2]; exact E.
Qed.


(** X16: the handler throws exactly for a request with a valid service
    key when the encryption key cannot be imported, or when the URL is a
    bypass URL and the upstream call fails; with an importable key it
    returns a response on every cacheable URL. *)
Theorem fetch_rejects_iff request env upstream now iv w :
  fst (fetch request env upstream now iv w) = None <->
  isValidServiceKey
    (Headers_get (req_headers request) (js "x-cache-service-key"))
    (SERVICE_AUTH_KEY env) = true /\
  (getEncryptionKey (D1_CACHESTORE_ENCRYPTION_KEY env) = None
   \/ canCacheEndpoint (req_url request) = false /\
      match upstreamURL (req_url request) (SUPABASE_URL env) with
      | None => True
      | Some u => upstream (upstreamRequest request u) = None
      end).
Proof.
  fold (serviceKeyOf request). split.
  - intros Hnone.
    destruct (fetch_shape request env upstream now iv w)
      as (t & _ & [(_ & _ & [[_ Hr] | (Hv & _ & [He | [Hc Hu]])])
           | [(u & Hu & _ & _ & Hv & Hc & Hr) | [(_ & _ & _ & _ & resp & Hr) |
           [(u & _ & _ & _ & _ & _ & Hr)
            | (u & row & response & _ & _ & _ & _ & _ & _ & Hr)]]]]);
      try congruence.
    + auto.
    + split; [exact Hv|]. right. split; [exact Hc|]. now rewrite Hu.
    + split; [exact Hv|]. right. split; [exact Hc|]. rewrite Hu. congruence.
  - intros [Hv [He | [Hc Hu]]].
    + now rewrite fetch_key_import_fails.
    + destruct (getEncryptionKey (D1_CACHESTORE_ENCRYPTION_KEY env)) as [k|]
        eqn:He; [|now rewrite fetch_key_import_fails].
      rewrite (fetch_bypass _ _ _ _ _ _ k), fetchFromSupabase_eq by assumption.
      destruct (upstreamURL _ _); [exact Hu | reflexivity].
Qed.

(** X17: whenever the upstream was called and answered, the handler
    returns that answer unchanged, whether or not it was stored and whether
    or not storing it failed. *)
Theorem upstream_response_is_returned request env upstream now iv w t out
    response :
  w_trace (snd (fetch request env upstream now iv w)) = w_trace w ++ t ->
  In (UpstreamFetch out) t ->
  upstream out = Some response ->
  fst (fetch request env upstream now iv w) = Some response.
Proof.
  intros Ht Hin Hup.
  destruct (fetch_shape request env upstream now iv w) as (t' & Ht' & Hshape).
  rewrite Ht in Ht'. apply app_inv_head in Ht'. subst t'.
  destruct Hshape as [(-> & _) | [(u & _ & -> & _ & _ & _ & Hr) | [(-> & _) |
       [(u & _ & -> & _ & _ & _ & Hr)
        | (u & row & resp & _ & -> & _ & _ & _ & Hu & Hr)]]]];
    cbn [In] in Hin; intuition (try discriminate);
    match goal with H : UpstreamFetch _ = UpstreamFetch _ |- _ =>
      injection H as <- end;
    rewrite Hr; try rewrite Hup; try reflexivity; congruence.
Qed.

(** X18: when the upstream call fails the store is left as it was; on a
    cacheable URL the handler answers 500, on a bypass URL it throws. *)
Theorem upstream_failure request env upstream now iv w t out :
  w_trace (snd (fetch request env upstream now iv w)) = w_trace w ++ t ->
  In (UpstreamFetch out) t ->
  upstream out = None ->
  w_store (snd (fetch request env upstream now iv w)) = w_store w /\
  fst (fetch request env upstream now iv w) =
  (if canCacheEndpoint (req_url request)
   then Some (textResponse (js "Internal Server Error") 500)
   else None).
Proof.
  intros Ht Hin Hup.
  destruct (fetch_shape request env upstream now iv w) as (t' & Ht' & Hshape).
  rewrite Ht in Ht'. apply app_inv_head in Ht'. subst t'.
  destruct Hshape as [(-> & _) | [(u & _ & -> & Hs & _ & Hc & Hr) | [(-> & _) |
       [(u & _ & -> & Hs & _ & Hc & Hr)
        | (u & row & resp & _ & -> & _ & _ & _ & Hu & Hr)]]]];
    cbn [In] in Hin; intuition (try discriminate);
    match goal with H : UpstreamFetch _ = UpstreamFetch _ |- _ =>
      injection H as <- end;
    try congruence; rewrite Hr, Hc, Hup; reflexivity.
Qed.

(** X19: when the lookup yields a response, the handler returns it without
    calling the upstream and without writing, whatever the method of the
    request (a POST is answered from the cache too). *)
Theorem cache_hit_is_served request env upstream now iv w k cached :
  isValidServiceKey
    (Headers_get (req_headers request) (js "x-cache-service-key"))
    (SERVICE_AUTH_KEY env) = true ->
  getEncryptionKey (D1_CACHESTORE_ENCRYPTION_KEY env) = Some k ->
  canCacheEndpoint (req_url request) = true ->
  fst (getCachedResponse (generateCacheKey (req_url request)) now k w)
  = Some (Some cached) ->
  fetch request env upstream now iv w =
  (Some cached,
   mkWorld (w_store w)
     (w_trace w ++ [StoreRead (generateCacheKey (req_url request))])).
Proof.
  intros Hk He Hc Hhit.
  rewrite (fetch_cacheable request env upstream now iv w k Hk He Hc), Hhit.
  reflexivity.
Qed.

(** X20: a stored row whose body decodes but whose headers cannot be read
    back, or whose status cannot be given to the [Response] constructor,
    makes the handler answer 500 without calling the upstream (unlike a body
    that fails to decode, which is a miss). *)
Theorem unreadable_row_metadata request env upstream now iv w k row data :
  isValidServiceKey
    (Headers_get (req_headers request) (js "x-cache-service-key"))
    (SERVICE_AUTH_KEY env) = true ->
  getEncryptionKey (D1_CACHESTORE_ENCRYPTION_KEY env) = Some k ->
  canCacheEndpoint (req_url request) = true ->
  w_store w !! generateCacheKey (req_url request) = Some row ->
  sqlite_text_gt (row_expires row) (CURRENT_TIMESTAMP now) = true ->
  parseD1Row (generateCacheKey (req_url request)) row k = Some data ->
  headersOfJSON (row_headers row) = None
  \/ (row_status row < 200)%Z \/ (599 < row_status row)%Z
  \/ isNullBodyStatus (row_status row) = true ->
  fetch request env upstream now iv w =
  (Some (textResponse (js "Internal Server Error") 500),
   mkWorld (w_store w)
     (w_trace w ++ [StoreRead (generateCacheKey (req_url request))])).
Proof.
  intros Hk He Hc Hrow Hfresh Hp Hbad.
  rewrite (fetch_cacheable request env upstream now iv w k Hk He Hc).
  assert (Hthrow :
    fst (getCachedResponse (generateCacheKey (req_url request)) now k w)
    = None).
  { unfold getCachedResponse, mbind at 1, M_bind at 1, db_first.
    cbn [fst snd]. rewrite Hrow, Hfresh, Hp.
    assert (Hh : sc_headers data = row_headers row).
    { unfold parseD1Row in Hp.
      destruct (decrypt _ _); [|discriminate].
      destruct (decompressBody _); [|discriminate].
      injection Hp as <-. reflexivity. }
    unfold mbind, M_bind, orThrow. rewrite Hh.
    destruct (headersOfJSON (row_headers row)) as [hs|]; [|reflexivity].
    cbn [mret M_ret].
    assert (newResponse (sc_body data) (row_status row) hs = None) as ->;
      [|reflexivity].
    unfold newResponse.
    destruct Hbad as [Hbad | [Hlo | [Hhi | Hn]]]; [discriminate | | |].
    - assert ((200 <=? row_status row)%Z = false) as ->
        by (apply Z.leb_gt; lia). reflexivity.
    - assert ((row_status row <=? 599)%Z = false) as ->
        by (apply Z.leb_gt; lia). now rewrite andb_false_r.
    - rewrite Hn. now rewrite andb_false_r. }
  rewrite Hthrow. reflexivity.
Qed.


End Handler_effects.

(** ** The further properties at concrete requests *)

Lemma parseTTL_x_ttl_governs_witness :
  parseTTL [(js "X-TTL", js "30"); (js "cache-control", js "max-age=300")]
  = 30%Z.
Proof.
  apply (parseTTL_x_ttl_governs _ (js "30") 30); [reflexivity | reflexivity | lia].
Defined.

Lemma parseTTL_falls_back_witness :
  parseTTL [(js "X-TTL", js "soon"); (js "cache-control", js "max-age=300")]
  = 900%Z.
Proof.
  apply parseTTL_falls_back. right. right. exists (js "soon").
  split; [reflexivity | left; reflexivity].
Defined.

Lemma envelope_format_witness :
  exists envelope,
    encrypt (R := refRuntime) (js "secret") refKey refNonce = Some envelope /\
    length (split_on 58%N envelope) = 2%nat /\
    TextDecoder_decode (TextEncoder_encode envelope) = envelope.
Proof.
  destruct (encrypt (R := refRuntime) (js "secret") refKey refNonce)
    as [envelope|] eqn:E; [|vm_compute in E; discriminate E].
  exists envelope. split; [reflexivity|].
  destruct (envelope_format (R := refRuntime) _ _ _ _ E) as (Hs & _ & Ht).
  rewrite Hs. split; [reflexivity | exact Ht].
Defined.

Lemma decrypt_without_delimiter_witness :
  decrypt (R := refRuntime) (js "QUJD") refKey = None.
Proof.
  apply (decrypt_without_delimiter (R := refRuntime)).
  repeat constructor; discriminate.
Defined.


Lemma second_write_replaces_first_witness :
  let first := cacheResponse (R := refRuntime) (js "k") (js "[1]")
                 (mkResponse 200 [] []) 30 refTime refKey refNonce in
  let second := cacheResponse (R := refRuntime) (js "k") (js "[2]")
                  (mkResponse 201 [] []) 60 (refTime + 1000) refKey refNonce in
  w_store (snd (second (snd (first emptyWorld)))) =
  w_store (snd (second emptyWorld)).
Proof.
  intros first second.
  exact (proj1 (second_write_replaces_first (R := refRuntime) (js "k")
                  (js "[1]") (mkResponse 200 [] []) 30 refTime refNonce
                  (js "[2]") (mkResponse 201 [] []) 60 (refTime + 1000)%Z
                  refNonce refKey emptyWorld eq_refl)).
Defined.

Lemma entry_is_fresh_all_day_witness :
  exists row,
    w_store worldAfterGet !! generateCacheKey countriesURL = Some row /\
    Date_toISOString (refTime + 30000) = Some (row_expires row) /\
    fst (db_first (generateCacheKey countriesURL) (refTime + 50399000)
           worldAfterGet) = Some (Some row).
Proof.
  destruct (w_store worldAfterGet !! generateCacheKey countriesURL)
    as [row|] eqn:Hrow; [|vm_compute in Hrow; discriminate Hrow].
  assert (Hexp : Date_toISOString (refTime + 30000) = Some (row_expires row)).
  { vm_compute in Hrow. injection Hrow as <-. vm_compute. reflexivity. }
  exists row. split; [reflexivity|]. split; [exact Hexp|].
  exact (entry_is_fresh_all_day _ row worldAfterGet (refTime + 30000)%Z
           (refTime + 50399000)%Z Hrow Hexp eq_refl).
Defined.

Lemma fetch_touches_one_entry_witness :
  w_store (snd (fetch (R := refRuntime) queryOnlyRequest refEnv refUpstream
                  (refTime + 1000) refNonce worldAfterGet))
    !! generateCacheKey countriesURL
  = w_store worldAfterGet !! generateCacheKey countriesURL.
Proof.
  apply (fetch_touches_one_entry (R := refRuntime)).
  intros H. vm_compute in H. discriminate H.
Defined.

Lemma upstream_request_is_stripped_witness :
  let r := fetch (R := refRuntime) getRequest refEnv refUpstream refTime
             refNonce emptyWorld in
  let out := upstreamRequest getRequest
               (js "https://project.supabase.co" ++ countriesURL) in
  In (UpstreamFetch out) (w_trace (snd r)) /\
  Headers_get (req_headers out) (js "X-Cache-Service-Key") = None /\
  Headers_get (req_headers out) (js "X-TTL") = None.
Proof.
  intros r out.
  assert (Hin : In (UpstreamFetch out) (w_trace (snd r))).
  { vm_compute. right. left. reflexivity. }
  destruct (upstream_request_is_stripped (R := refRuntime) getRequest refEnv
              refUpstream refTime refNonce emptyWorld (w_trace (snd r)) out
              eq_refl Hin) as (_ & _ & H1 & H2 & _).
  split; [exact Hin|]. split; [exact H1 | exact H2].
Defined.

Lemma upstream_response_is_returned_witness :
  fst (fetch (R := refRuntime) getRequest refEnv nonJsonUpstream refTime
         refNonce emptyWorld)
  = nonJsonUpstream getRequest.
Proof.
  apply (upstream_response_is_returned (R := refRuntime) getRequest refEnv
           nonJsonUpstream refTime refNonce emptyWorld
           (w_trace (snd (fetch (R := refRuntime) getRequest refEnv
                            nonJsonUpstream refTime refNonce emptyWorld)))
           (upstreamRequest getRequest
              (js "https://project.supabase.co" ++ countriesURL))).
  - reflexivity.
  - vm_compute. right. left. reflexivity.
  - reflexivity.
Defined.

Lemma upstream_failure_witness :
  let r := fetch (R := refRuntime) getRequest refEnv failingUpstream refTime
             refNonce emptyWorld in
  w_store (snd r) = ∅ /\
  fst r = Some (textResponse (js "Internal Server Error") 500).
Proof.
  apply (upstream_failure (R := refRuntime) getRequest refEnv
           failingUpstream refTime refNonce emptyWorld
           (w_trace (snd (fetch (R := refRuntime) getRequest refEnv
                            failingUpstream refTime refNonce emptyWorld)))
           (upstreamRequest getRequest
              (js "https://project.supabase.co" ++ countriesURL))).
  - reflexivity.
  - vm_compute. right. left. reflexivity.
  - reflexivity.
Defined.

Lemma cache_hit_is_served_witness :
  fetch (R := refRuntime) postRequest refEnv failingUpstream (refTime + 1000)
    refNonce worldAfterGet =
  (refUpstream getRequest,
   mkWorld (w_store worldAfterGet)
     (w_trace worldAfterGet ++ [StoreRead (generateCacheKey countriesURL)])).
Proof.
  exact (cache_hit_is_served (R := refRuntime) postRequest refEnv
           failingUpstream (refTime + 1000)%Z refNonce worldAfterGet refKey
           (mkResponse 200 [(js "content-type", js "application/json")]
              (lit "[1,2,3]"))
           eq_refl eq_refl eq_refl eq_refl).
Defined.

Lemma unreadable_row_metadata_witness :
  fetch (R := refRuntime) headRequest refEnv refUpstream (refTime + 1000)
    refNonce worldUnreadableHeaders =
  (Some (textResponse (js "Internal Server Error") 500),
   mkWorld (w_store worldUnreadableHeaders)
     [StoreRead (generateCacheKey countriesURL)]).
Proof.
  destruct (w_store worldUnreadableHeaders !! generateCacheKey countriesURL)
    as [row|] eqn:Hrow; [|vm_compute in Hrow; discriminate Hrow].
  destruct (parseD1Row (R := refRuntime) (generateCacheKey countriesURL) row
              refKey) as [data|] eqn:Hp.
  2:{ vm_compute in Hrow. injection Hrow as <-. vm_compute in Hp.
      discriminate Hp. }
  refine (unreadable_row_metadata (R := refRuntime) headRequest refEnv
            refUpstream (refTime + 1000)%Z refNonce worldUnreadableHeaders
            refKey row data eq_refl eq_refl eq_refl Hrow _ Hp _).
  - vm_compute in Hrow. injection Hrow as <-. vm_compute. reflexivity.
  - left. vm_compute in Hrow. injection Hrow as <-. vm_compute. reflexivity.
Defined.

